(** * The news-feed hook [useNewsFeeds.js]: model and verification

    The hook fetches five RSS/Atom feeds through CORS relays, parses
    them into article records, merges, sorts and de-duplicates them and
    falls back to a curated list.  This file embeds the functions of
    [src/hooks/useNewsFeeds.js] ([parseRSSItems], [fetchWithProxy],
    [fetchNews], [getFallbackArticles]) together with the part of the
    JavaScript host they call (strings, [Date], the DOM, [fetch],
    promises, [Array.prototype.sort]), and proves the properties of the
    specification about them. *)

From Stdlib Require Import ZArith Ascii String Sorting.Sorted Permutation.
From stdpp Require Import base tactics option list sorting strings pretty gmap.

Local Open Scope string_scope.
Set Warnings "-register-all".

(** ** JavaScript strings

    A JavaScript string is a sequence of code units.  The model uses
    Rocq strings, that is the code units below 256 (Latin-1); on these
    the functions below are the ones of ECMAScript. *)

Module Js.

Definition code (c : ascii) : nat := nat_of_ascii c.

(** [WhiteSpace] and [LineTerminator] code units below 256: TAB, LF,
    VT, FF, CR, SP and NBSP. *)
Definition is_white_space (c : ascii) : bool :=
  let n := code c in
  ((n =? 9) || (n =? 10) || (n =? 11) || (n =? 12) || (n =? 13)
   || (n =? 32) || (n =? 160))%nat.

Fixpoint trimStart (s : string) : string :=
  match s with
  | EmptyString => EmptyString
  | String c s' => if is_white_space c then trimStart s' else s
  end.

Fixpoint trimEnd (s : string) : string :=
  match s with
  | EmptyString => EmptyString
  | String c s' =>
      match trimEnd s' with
      | EmptyString => if is_white_space c then EmptyString else String c EmptyString
      | t => String c t
      end
  end.

(** [s.trim()] *)
Definition trim (s : string) : string := trimEnd (trimStart s).

(** [s.slice(start, end)] for non-negative indices. *)
Definition slice (start end_ : nat) (s : string) : string :=
  String.substring start (end_ - start) s.

(** Lower-casing of one Latin-1 code unit: A-Z, and the letters
    U+00C0..U+00DE except the multiplication sign U+00D7. *)
Definition lower_code_unit (c : ascii) : ascii :=
  let n := code c in
  if (((65 <=? n) && (n <=? 90))
      || ((192 <=? n) && (n <=? 222) && negb (n =? 215)))%nat
  then ascii_of_nat (n + 32) else c.

(** [s.toLowerCase()] on a string of Latin-1 code units, where it works
    code unit by code unit.  On other text the lower-casing of
    ECMAScript depends on the context of a letter (the final sigma) and
    may change the length, so it commutes neither with concatenation
    nor with [slice]; no statement below relies on that. *)
Fixpoint toLowerCase (s : string) : string :=
  match s with
  | EmptyString => EmptyString
  | String c s' => String (lower_code_unit c) (toLowerCase s')
  end.

Definition is_empty (s : string) : bool :=
  match s with EmptyString => true | _ => false end.

(** Truthiness of a value that is a string or [undefined]/[null]. *)
Definition truthy (v : option string) : bool :=
  match v with
  | Some s => negb (is_empty s)
  | None => false
  end.

(** [a || b] on values that are strings or [undefined]. *)
Definition or (a b : option string) : option string :=
  if truthy a then a else b.

(** [a || b] on strings. *)
Definition str_or (a b : string) : string :=
  if is_empty a then b else a.

(** [a || b] where [a] is a string or [undefined] and [b] a string. *)
Definition or_str (a : option string) (b : string) : string :=
  match a with
  | Some s => str_or s b
  | None => b
  end.

(** The string that a truthy value is. *)
Definition value (v : option string) : string := default EmptyString v.

(** ** Dates

    A [Date] object holds a time value: a number of milliseconds
    since the epoch, or NaN (an invalid date). *)
Definition Date : Type := option Z.

Definition is_valid (d : Date) : bool :=
  match d with Some _ => true | None => false end.

(** [b - a] on dates: a number, or NaN (here [None]) when either
    operand is an invalid date. *)
Definition date_sub (b a : Date) : option Z :=
  match b, a with
  | Some tb, Some ta => Some (tb - ta)%Z
  | _, _ => None
  end.

(** ** Exceptions and completions *)

Inductive Exn :=
| TypeError (message : string)
| DOMException (name : string).

Inductive Outcome (A : Type) :=
| Normal (a : A)
| Throw (e : Exn).
Global Arguments Normal {A} a.
Global Arguments Throw {A} e.

(** A piece of synchronous code: it runs on a state of type [S], it
    returns or throws, and what it did to the state before throwing
    stays done. *)
Definition M (S A : Type) : Type := S → Outcome A * S.

Definition ret {S A} (a : A) : M S A := λ s, (Normal a, s).

Definition bind {S A B} (m : M S A) (k : A → M S B) : M S B :=
  λ s, match m s with
       | (Normal a, s') => k a s'
       | (Throw e, s') => (Throw e, s')
       end.

(** [try { m } catch (err) { handler err }] *)
Definition try_catch {S A} (m : M S A) (handler : Exn → M S A) : M S A :=
  λ s, match m s with
       | (Normal a, s') => (Normal a, s')
       | (Throw e, s') => handler e s'
       end.

(** [try { m } finally { f }] *)
Definition try_finally {S A} (m : M S A) (f : M S unit) : M S A :=
  λ s, match m s with
       | (r, s') =>
           match f s' with
           | (Normal _, s'') => (r, s'')
           | (Throw e, s'') => (Throw e, s'')
           end
       end.

Definition modify {S} (f : S → S) : M S unit := λ s, (Normal tt, f s).

(** A settled promise awaited: its value, or its reason thrown. *)
Definition await {S A} (o : Outcome A) : M S A := λ s, (o, s).

(** Code that works on a part of the state. *)
Definition zoom {S T A} (get : S → T) (set : T → S → S) (m : M T A) : M S A :=
  λ s, match m (get s) with (r, t) => (r, set t s) end.

(** ** The system clock

    A running activity reads the clock some number of times; [clk n]
    is what its [n]-th reading returns.  The state of the activity
    counts the readings made so far. *)
Definition Clock : Type := nat → Z.

(** [Date.now()] *)
Definition Date_now (clk : Clock) : M nat Z := λ t, (Normal (clk t), S t).

(** [new Date()] *)
Definition new_Date (clk : Clock) : M nat Date :=
  λ t, (Normal (Some (clk t)), S t).

(** ** Arrays *)

(** [l.forEach(f)] where the callback [f] updates a variable of its
    closure, here passed along explicitly. *)
Fixpoint forEach {S A B} (l : list A) (f : A → B → M S B) (acc : B) : M S B :=
  match l with
  | [] => ret acc
  | x :: l' => bind (f x acc) (forEach l' f)
  end.

(** [l.push(x)] *)
Definition push {A} (l : list A) (x : A) : list A := (l ++ [x])%list.

(** [l.slice(start, end)] for non-negative indices. *)
Definition slice_array {A} (start end_ : nat) (l : list A) : list A :=
  take (end_ - start) (drop start l).

(** [SortCompare]: the value of the comparator, with NaN read as +0. *)
Definition sort_compare {A} (cmp : A → A → option Z) (x y : A) : Z :=
  match cmp x y with
  | Some v => v
  | None => 0%Z
  end.

(** [l.sort(cmp)].  ECMAScript requires the sort to be stable, which
    fixes its result whenever the comparator is a consistent one; the
    result is implementation-defined otherwise.  The model is the
    stable insertion sort: an element is moved past those that the
    comparator places strictly before it and no further. *)
Fixpoint sort_insert {A} (cmp : A → A → option Z) (x : A) (l : list A) : list A :=
  match l with
  | [] => [x]
  | y :: l' =>
      if (0 <? sort_compare cmp x y)%Z
      then y :: sort_insert cmp x l'
      else x :: y :: l'
  end.

Fixpoint sort {A} (cmp : A → A → option Z) (l : list A) : list A :=
  match l with
  | [] => []
  | x :: l' => sort_insert cmp x (sort cmp l')
  end.

(** ** Promises *)

(** An element of the array that [Promise.allSettled] resolves to. *)
Inductive Settled (A : Type) :=
| Fulfilled (value : A)
| Rejected (reason : Exn).
Global Arguments Fulfilled {A} value.
Global Arguments Rejected {A} reason.

Definition settle {A} (o : Outcome A) : Settled A :=
  match o with
  | Normal a => Fulfilled a
  | Throw e => Rejected e
  end.

Definition is_fulfilled {A} (r : Settled A) : bool :=
  match r with Fulfilled _ => true | Rejected _ => false end.

(** [r.value]: [undefined] on a rejected one, which [flatMap] would
    keep as an element; the code reads it on fulfilled ones only. *)
Definition value_of {A} (r : Settled (list A)) : list A :=
  match r with Fulfilled v => v | Rejected _ => [] end.

End Js.

Notation "'do' x <- m ; k" := (Js.bind m (λ x, k))
  (at level 10, x name, m at level 100, k at level 200).

(** ** The DOM *)

Module Dom.

(** Element and text nodes (CDATA sections are text nodes).  Comments
    and processing instructions are left out: no query of the program
    sees them. *)
Inductive Node :=
| Text (data : string)
| Element (localName : string) (attributes : list (string * string))
          (childNodes : list Node).

(** A document: the children of the document node. *)
Definition Document : Type := list Node.

Fixpoint textContent (n : Node) : string :=
  match n with
  | Text d => d
  | Element _ _ cs => String.concat "" (map textContent cs)
  end.

(** The descendants of a node, in tree order. *)
Fixpoint descendants (n : Node) : list Node :=
  match n with
  | Text _ => []
  | Element _ _ cs => flat_map (λ c, c :: descendants c) cs
  end.

Definition document_descendants (d : Document) : list Node :=
  flat_map (λ c, c :: descendants c) d.

Definition getAttribute (name : string) (n : Node) : option string :=
  match n with
  | Text _ => None
  | Element _ attrs _ =>
      snd <$> List.find (λ kv, String.eqb (fst kv) name) attrs
  end.

(** The selectors the program uses: [tag] and [tag[attr]]. *)
Inductive Selector :=
| ByTag (tag : string)
| ByTagWithAttr (tag attr : string).

Definition matches (sel : Selector) (n : Node) : bool :=
  match n with
  | Text _ => false
  | Element name _ _ =>
      match sel with
      | ByTag tag => String.eqb name tag
      | ByTagWithAttr tag attr =>
          String.eqb name tag && bool_decide (is_Some (getAttribute attr n))
      end
  end.

(** [n.querySelectorAll(sel)] and [n.querySelector(sel)] on an element. *)
Definition querySelectorAll (sel : Selector) (n : Node) : list Node :=
  List.filter (matches sel) (descendants n).

Definition querySelector (sel : Selector) (n : Node) : option Node :=
  head (querySelectorAll sel n).

Definition document_querySelectorAll (sel : Selector) (d : Document) : list Node :=
  List.filter (matches sel) (document_descendants d).

(** [n.innerText] of an element that is not rendered (a detached one)
    is its [textContent]. *)
Definition innerText (n : Node) : string := textContent n.

End Dom.

Import Js Dom.

(** ** The data of the hook *)

Module FeedSource.
Record t := make {
  name : string;
  url : string;
  category : string;
  color : string;
}.
End FeedSource.

Module Article.
Record t := make {
  title : string;
  link : string;
  pubDate : Date;
  description : string;
  source : string;
  category : string;
  color : string;
}.
End Article.

(** ** The host: browser and network

    What the program gets from its environment.  [Date_parse] is the
    time value of [new Date(s)]; [innerHTML] gives the children an
    element has after [el.innerHTML = s] (the empty string gives none);
    [fetch] is what a request made in this round ends in; [clock] gives
    the readings of the system clock that each activity makes.
    [has_allSettled] tells whether [Promise.allSettled] exists: it is
    absent from engines older than ES2020, where calling it throws. *)

Inductive Activity :=
| Parsing (source : FeedSource.t)
| Refreshing.

Record Response := {
  ok : bool;
  text : Outcome string;
}.

Record Host := {
  parseFromString : string → Document;
  innerHTML : string → list Node;
  innerHTML_empty : innerHTML "" = [];
  Date_parse : string → option Z;
  fetch_result : string → Outcome Response;
  has_allSettled : bool;
  clock : Activity → Clock;
}.

(** [new Date(s)] *)
Definition new_Date_from (h : Host) (s : string) : Date := Date_parse h s.

Definition hex_digit (n : nat) : ascii :=
  ascii_of_nat (if (n <? 10)%nat then 48 + n else 55 + n).

Definition is_uri_unreserved (c : ascii) : bool :=
  let n := code c in
  (((65 <=? n) && (n <=? 90)) || ((97 <=? n) && (n <=? 122))
   || ((48 <=? n) && (n <=? 57))
   || (n =? 45) || (n =? 95) || (n =? 46) || (n =? 33) || (n =? 126)
   || (n =? 42) || (n =? 39) || (n =? 40) || (n =? 41))%nat.

(** The percent escape of an octet. *)
Definition percent (n : nat) : string :=
  String "%" (String (hex_digit (n / 16)) (String (hex_digit (n mod 16)) "")).

(** [encodeURIComponent]: the unreserved characters stay, every other
    code unit becomes the percent escapes of its UTF-8 octets, one
    below U+0080 and two from U+0080 to U+00FF. *)
Fixpoint encodeURIComponent (s : string) : string :=
  match s with
  | EmptyString => EmptyString
  | String c s' =>
      let n := code c in
      (if is_uri_unreserved c then String c ""
       else if (n <? 128)%nat then percent n
       else percent (192 + n / 64) +:+ percent (128 + n mod 64))
      +:+ encodeURIComponent s'
  end.

(** ** Constants of the module *)

Definition RSS_SOURCES : list FeedSource.t := [
  FeedSource.make "TechCrunch AI"
    "https://techcrunch.com/category/artificial-intelligence/feed/"
    "Industry" "#10b981";
  FeedSource.make "The Verge AI"
    "https://www.theverge.com/rss/ai-artificial-intelligence/index.xml"
    "Industry" "#8b5cf6";
  FeedSource.make "MIT Tech Review"
    "https://www.technologyreview.com/feed/"
    "Research" "#ec4899";
  FeedSource.make "Ars Technica AI"
    "https://feeds.arstechnica.com/arstechnica/technology-lab"
    "Tools" "#f59e0b";
  FeedSource.make "VentureBeat AI"
    "https://venturebeat.com/category/ai/feed/"
    "Industry" "#06b6d4"
].

Definition CORS_PROXIES : list (string → string) := [
  λ url, "https://api.allorigins.win/raw?url=" +:+ encodeURIComponent url;
  λ url, "https://corsproxy.io/?" +:+ encodeURIComponent url
].

(** ** [parseRSSItems] *)

(** The state of a parse: how many times it has read the clock, and
    the queries it has made on the document. *)
Record ParseState := {
  clock_reads : nat;
  document_queries : list Selector;
}.

Definition reading_clock {A} (m : M nat A) : M ParseState A :=
  zoom clock_reads
       (λ t s, {| clock_reads := t; document_queries := document_queries s |})
       m.

(** [xml.querySelectorAll(sel)] *)
Definition xml_querySelectorAll (xml : Document) (sel : Selector)
  : M ParseState (list Node) :=
  λ s, (Normal (document_querySelectorAll sel xml),
        {| clock_reads := clock_reads s;
           document_queries := push (document_queries s) sel |}).

(** [el.querySelector(sel)?.textContent?.trim()] *)
Definition trimmed_text (sel : Selector) (el : Node) : option string :=
  (λ e, trim (textContent e)) <$> querySelector sel el.

(** The three lines that strip the markup of a description: the text
    is set as the [innerHTML] of a detached [div], whose text is read
    back. *)
Definition strip_html (h : Host) (html : string) : string :=
  let tempDiv := Element "div" [] (innerHTML h html) in
  str_or (str_or (textContent tempDiv) (innerText tempDiv)) "".

(** [text ? new Date(text) : new Date()] *)
Definition date_or_now (h : Host) (clk : Clock) (text : option string)
  : M ParseState Date :=
  if truthy text then ret (new_Date_from h (value text))
  else reading_clock (new_Date clk).

(** The callback of [rssItems.forEach]; [items] is the array it pushes to. *)
Definition rss_callback (h : Host) (clk : Clock) (source : FeedSource.t)
    (item : Node) (items : list Article.t) : M ParseState (list Article.t) :=
  let title := trimmed_text (ByTag "title") item in
  let link := trimmed_text (ByTag "link") item in
  let pubDate := trimmed_text (ByTag "pubDate") item in
  let description := trimmed_text (ByTag "description") item in
  if truthy title && truthy link then
    let cleanDesc := strip_html h (or_str description "") in
    do date <- date_or_now h clk pubDate;
    ret (push items
           (Article.make (value title) (value link) date
              (slice 0 200 cleanDesc)
              (FeedSource.name source) (FeedSource.category source)
              (FeedSource.color source)))
  else ret items.

(** The callback of [entries.forEach]. *)
Definition atom_callback (h : Host) (clk : Clock) (source : FeedSource.t)
    (entry : Node) (items : list Article.t) : M ParseState (list Article.t) :=
  let title := trimmed_text (ByTag "title") entry in
  let linkEl := querySelector (ByTagWithAttr "link" "href") entry in
  let link := linkEl ≫= getAttribute "href" in
  let published :=
    Js.or (trimmed_text (ByTag "published") entry)
          (trimmed_text (ByTag "updated") entry) in
  let summary :=
    Js.or (trimmed_text (ByTag "summary") entry)
          (trimmed_text (ByTag "content") entry) in
  if truthy title && truthy link then
    let cleanDesc := strip_html h (or_str summary "") in
    do date <- date_or_now h clk published;
    ret (push items
           (Article.make (value title) (value link) date
              (slice 0 200 cleanDesc)
              (FeedSource.name source) (FeedSource.category source)
              (FeedSource.color source)))
  else ret items.

Definition parseRSSItems (h : Host) (clk : Clock)
    (xmlText : string) (source : FeedSource.t) : M ParseState (list Article.t) :=
  let xml := parseFromString h xmlText in
  let items := [] in
  do rssItems <- xml_querySelectorAll xml (ByTag "item");
  do items <- forEach rssItems (rss_callback h clk source) items;
  do items <-
    (if (length items =? 0)%nat then
       do entries <- xml_querySelectorAll xml (ByTag "entry");
       forEach entries (atom_callback h clk source) items
     else ret items);
  ret (slice_array 0 8 items).

(** The state a parse starts from. *)
Definition parse_start : ParseState :=
  {| clock_reads := 0; document_queries := [] |}.

(** ** [fetchWithProxy] *)

(** [await fetch(url, ...)]: the request is made, which the state
    records, and its result awaited. *)
Definition fetch (h : Host) (url : string) : M (list string) Response :=
  λ requests, (fetch_result h url, push requests url).

(** How the body of the [for] loop ends: by [return], or by going to
    the next round (at the end of the body, or by [continue]). *)
Inductive LoopExit (A : Type) :=
| Return (v : A)
| NextRound.
Arguments Return {A} v.
Arguments NextRound {A}.

Fixpoint for_of_proxies (h : Host) (url : string) (proxies : list (string → string))
  : M (list string) (option string) :=
  match proxies with
  | [] => ret None
  | proxyFn :: rest =>
      do exit <-
        try_catch
          (let proxyUrl := proxyFn url in
           do res <- fetch h proxyUrl;
           if ok res then
             do body <- await (text res);
             ret (Return body)
           else ret NextRound)
          (λ _, ret NextRound);
      match exit with
      | Return body => ret (Some body)
      | NextRound => for_of_proxies h url rest
      end
  end.

Definition fetchWithProxy (h : Host) (url : string) : M (list string) (option string) :=
  for_of_proxies h url CORS_PROXIES.

(** ** [getFallbackArticles] *)

(** [new Date(t)] for a time value [t]. *)
Definition new_Date_at (t : Z) : Date := Some t.

Definition getFallbackArticles (clk : Clock) : M nat (list Article.t) :=
  do d0 <- new_Date clk;
  do t1 <- Date_now clk;
  do t2 <- Date_now clk;
  do t3 <- Date_now clk;
  do t4 <- Date_now clk;
  do t5 <- Date_now clk;
  do t6 <- Date_now clk;
  do t7 <- Date_now clk;
  do t8 <- Date_now clk;
  do t9 <- Date_now clk;
  do t10 <- Date_now clk;
  do t11 <- Date_now clk;
  ret [
    Article.make
      "OpenAI Announces GPT-5 With Enhanced Reasoning Capabilities"
      "https://techcrunch.com/category/artificial-intelligence/"
      d0
      "The latest model from OpenAI brings significant improvements to multi-step reasoning, code generation, and real-time data analysis capabilities."
      "TechCrunch AI" "Industry" "#10b981";
    Article.make
      "Google DeepMind Achieves Breakthrough in Protein Structure Prediction"
      "https://www.technologyreview.com/"
      (new_Date_at (t1 - 3600000))
      "The research lab's latest AlphaFold model can now predict protein interactions with near-experimental accuracy, opening new doors for drug discovery."
      "MIT Tech Review" "Research" "#ec4899";
    Article.make
      "Microsoft Invests $10B in New AI-Optimized Data Center Network"
      "https://www.theverge.com/ai-artificial-intelligence"
      (new_Date_at (t2 - 7200000))
      "The new data centers will feature custom-designed AI accelerators and advanced cooling systems to support next-generation AI workloads."
      "The Verge AI" "Data Centers" "#8b5cf6";
    Article.make
      "Anthropic Releases Claude with Advanced Tool Use and Computer Control"
      "https://venturebeat.com/category/ai/"
      (new_Date_at (t3 - 10800000))
      "Claude can now interact with desktop applications, browse the web, and execute complex multi-step tasks autonomously."
      "VentureBeat AI" "Tools" "#06b6d4";
    Article.make
      "NVIDIA Unveils Next-Gen Blackwell Ultra GPUs for AI Training"
      "https://arstechnica.com/ai/"
      (new_Date_at (t4 - 14400000))
      "The new B300 GPUs deliver 4x performance improvement over previous generation, targeting enterprise AI training and inference workloads."
      "Ars Technica AI" "Data Centers" "#f59e0b";
    Article.make
      "Meta Open-Sources Llama 4 with Mixture-of-Experts Architecture"
      "https://techcrunch.com/category/artificial-intelligence/"
      (new_Date_at (t5 - 18000000))
      "The fully open-source model matches proprietary models in benchmarks while being significantly more efficient to run on consumer hardware."
      "TechCrunch AI" "Industry" "#10b981";
    Article.make
      "Cursor and GitHub Copilot Battle for AI Coding Tool Supremacy"
      "https://www.theverge.com/ai-artificial-intelligence"
      (new_Date_at (t6 - 21600000))
      "AI-powered coding assistants are transforming software development, with new features like multi-file editing and autonomous debugging."
      "The Verge AI" "Tools" "#8b5cf6";
    Article.make
      "EU AI Act Enforcement Begins: What Companies Need to Know"
      "https://www.technologyreview.com/"
      (new_Date_at (t7 - 25200000))
      "New regulations mandate transparency, risk assessments, and human oversight for high-risk AI systems deployed in the European Union."
      "MIT Tech Review" "Industry" "#ec4899";
    Article.make
      "Perplexity AI Raises $500M, Aims to Replace Traditional Search"
      "https://venturebeat.com/category/ai/"
      (new_Date_at (t8 - 28800000))
      "The AI-powered search engine now processes over 100 million queries per day, directly challenging Google's search dominance."
      "VentureBeat AI" "Tools" "#06b6d4";
    Article.make
      "AWS Launches Custom AI Chips to Reduce Cloud Computing Costs"
      "https://arstechnica.com/ai/"
      (new_Date_at (t9 - 32400000))
      "The Trainium3 chips promise 50% cost reduction for AI inference workloads compared to traditional GPU-based solutions."
      "Ars Technica AI" "Data Centers" "#f59e0b";
    Article.make
      "Stable Diffusion 4 Generates Photorealistic Video From Text Prompts"
      "https://techcrunch.com/category/artificial-intelligence/"
      (new_Date_at (t10 - 36000000))
      "The new model can produce 60-second high-definition videos with consistent characters and physics-accurate movements."
      "TechCrunch AI" "Tools" "#10b981";
    Article.make
      "AI-Powered Drug Discovery Enters Phase 3 Clinical Trials"
      "https://www.technologyreview.com/"
      (new_Date_at (t11 - 39600000))
      "Insilico Medicine's AI-designed drug candidate for fibrosis shows promising results, potentially cutting drug development timelines by years."
      "MIT Tech Review" "Research" "#ec4899"
  ].

(** ** [useNewsFeeds] and [fetchNews] *)

(** The four state variables of the hook. *)
Record ViewState := {
  articles : list Article.t;
  loading : bool;
  error : option string;
  lastUpdated : option Date;
}.

(** What [useState] starts them with. *)
Definition initial_view : ViewState :=
  {| articles := []; loading := true; error := None; lastUpdated := None |}.

(** The state of a run of [fetchNews]: the state variables, and how
    many times the run has read the clock. *)
Record Run := {
  view : ViewState;
  reads : nat;
}.

Definition on_view (f : ViewState → ViewState) : M Run unit :=
  modify (λ r, {| view := f (view r); reads := reads r |}).

Definition setArticles (v : list Article.t) : M Run unit :=
  on_view (λ s, {| articles := v; loading := loading s;
                   error := error s; lastUpdated := lastUpdated s |}).

Definition setLoading (v : bool) : M Run unit :=
  on_view (λ s, {| articles := articles s; loading := v;
                   error := error s; lastUpdated := lastUpdated s |}).

Definition setError (v : option string) : M Run unit :=
  on_view (λ s, {| articles := articles s; loading := loading s;
                   error := v; lastUpdated := lastUpdated s |}).

Definition setLastUpdated (v : Date) : M Run unit :=
  on_view (λ s, {| articles := articles s; loading := loading s;
                   error := error s; lastUpdated := Some v |}).

Definition reading {A} (m : M nat A) : M Run A :=
  zoom reads (λ t r, {| view := view r; reads := t |}) m.

(** What a piece of code run from a state ends in. *)
Definition run {S A} (m : M S A) (s : S) : Outcome A := fst (m s).

(** The promise of the [async (source) => ...] of the fan-out, by what
    it settles to. *)
Definition pipeline (h : Host) (source : FeedSource.t) : Outcome (list Article.t) :=
  match run (fetchWithProxy h (FeedSource.url source)) [] with
  | Throw e => Throw e
  | Normal xmlText =>
      if negb (truthy xmlText) then Normal []
      else run (parseRSSItems h (clock h (Parsing source)) (value xmlText) source)
               parse_start
  end.

(** [Promise.allSettled(promises)], from the outcomes of the promises. *)
Definition Promise_allSettled (h : Host) {A} (promises : list (Outcome A))
  : Outcome (list (Settled A)) :=
  if has_allSettled h then Normal (settle <$> promises)
  else Throw (TypeError "Promise.allSettled is not a function").

(** [l.filter(f)] where the callback [f] reads and updates a variable of
    its closure, here passed along explicitly. *)
Fixpoint filter_with {A S} (f : A → S → bool * S) (l : list A) (s : S) : list A :=
  match l with
  | [] => []
  | x :: l' =>
      match f x s with
      | (true, s') => x :: filter_with f l' s'
      | (false, s') => filter_with f l' s'
      end
  end.

(** [article.title.toLowerCase().slice(0, 50)] *)
Definition dedup_key (article : Article.t) : string :=
  slice 0 50 (toLowerCase (Article.title article)).

(** The callback of the de-duplicating [filter]; [seen] is the [Set]. *)
Definition unseen (article : Article.t) (seen : gset string) : bool * gset string :=
  let key := dedup_key article in
  if bool_decide (key ∈ seen) then (false, seen)
  else (true, {[key]} ∪ seen).

(** [(a, b) => b.pubDate - a.pubDate] *)
Definition newest_first (a b : Article.t) : option Z :=
  date_sub (Article.pubDate b) (Article.pubDate a).

(** [allArticles] *)
Definition all_articles (results : list (Settled (list Article.t))) : list Article.t :=
  sort newest_first (flat_map value_of (List.filter is_fulfilled results)).

(** [unique] *)
Definition unique_articles (allArticles : list Article.t) : list Article.t :=
  filter_with unseen allArticles ∅.

Definition error_message : string :=
  "Could not load live feeds. Showing curated articles.".

Definition fetchNews (h : Host) : M Run unit :=
  let clk := clock h Refreshing in
  do _ <- setLoading true;
  do _ <- setError None;
  try_finally
    (try_catch
       (do results <- await (Promise_allSettled h (map (pipeline h) RSS_SOURCES));
        let allArticles := all_articles results in
        let unique := unique_articles allArticles in
        do _ <-
          (if (length unique =? 0)%nat then
             do fallback <- reading (getFallbackArticles clk);
             setArticles fallback
           else setArticles unique);
        do now <- reading (new_Date clk);
        setLastUpdated now)
       (λ err,
        do _ <- setError (Some error_message);
        do fallback <- reading (getFallbackArticles clk);
        do _ <- setArticles fallback;
        do now <- reading (new_Date clk);
        setLastUpdated now))
    (setLoading false).

(** ** The page [AINews.jsx]

    The page that calls the hook: it formats the age of an article,
    filters the list by category and by search text, counts sources
    and categories, and chooses what the grid shows. *)

(** The numbers of the page are differences of time values and their
    quotients: integers, or NaN.  [Math.floor(x / c)] on an integer [x]
    below 2^53 in size, as differences of dates are, is the floor of
    the exact quotient. *)
Definition Math_floor_div (x : option Z) (c : Z) : option Z :=
  (λ v, (v / c)%Z) <$> x.

(** [x < n], false on NaN. *)
Definition number_lt (x : option Z) (n : Z) : bool :=
  match x with
  | Some v => (v <? n)%Z
  | None => false
  end.

(** The text of a number in a template literal. *)
Definition number_to_string (x : option Z) : string :=
  match x with
  | Some v => pretty v
  | None => "NaN"
  end.

(** [formatTimeAgo]; [toLocaleDateString] stands for
    [date.toLocaleDateString('en-US', { month: 'short', day: 'numeric' })],
    which is the host's. *)
Definition formatTimeAgo (toLocaleDateString : Date → string) (clk : Clock)
    (date : Date) : M nat string :=
  do now <- new_Date clk;
  let diffMs := date_sub now date in
  let diffMins := Math_floor_div diffMs 60000 in
  let diffHours := Math_floor_div diffMs 3600000 in
  let diffDays := Math_floor_div diffMs 86400000 in
  if number_lt diffMins 1 then ret "Just now"
  else if number_lt diffMins 60 then ret (number_to_string diffMins +:+ "m ago")
  else if number_lt diffHours 24 then ret (number_to_string diffHours +:+ "h ago")
  else if number_lt diffDays 7 then ret (number_to_string diffDays +:+ "d ago")
  else ret (toLocaleDateString date).

Definition CATEGORIES : list string :=
  ["All"; "Industry"; "Tools"; "Data Centers"; "Research"].

(** [s.includes(search)] *)
Fixpoint includes (s search : string) : bool :=
  String.prefix search s
  || match s with
     | EmptyString => false
     | String _ s' => includes s' search
     end.

(** The callback of the filter of [filteredArticles]. *)
Definition matches_filters (activeCategory searchQuery : string)
    (article : Article.t) : bool :=
  let matchesCategory :=
    String.eqb activeCategory "All"
    || String.eqb (Article.category article) activeCategory in
  let matchesSearch :=
    is_empty searchQuery
    || includes (toLowerCase (Article.title article)) (toLowerCase searchQuery)
    || includes (toLowerCase (Article.description article)) (toLowerCase searchQuery) in
  matchesCategory && matchesSearch.

Definition filteredArticles (articles : list Article.t)
    (activeCategory searchQuery : string) : list Article.t :=
  List.filter (matches_filters activeCategory searchQuery) articles.

(** [stats] *)
Record Stats := {
  total : nat;
  sources : nat;
  categories : nat;
}.

(** [new Set(l).size] *)
Definition Set_size (l : list string) : nat :=
  size (list_to_set l : gset string).

Definition stats (articles : list Article.t) : Stats :=
  {| total := length articles;
     sources := Set_size (Article.source <$> articles);
     categories := Set_size (Article.category <$> articles) |}.

(** What the page puts below the controls: the notice with the error
    message when there is one, and the skeleton cards while loading,
    else the grid, which is the empty state or the cards of the
    filtered articles. *)
Inductive Grid :=
| Skeletons (n : nat)
| EmptyState
| NewsCards (cards : list Article.t).

Definition error_notice (v : ViewState) : option string :=
  if truthy (error v) then error v else None.

Definition news_grid (v : ViewState) (activeCategory searchQuery : string) : Grid :=
  if loading v then Skeletons 6
  else
    let filtered := filteredArticles (articles v) activeCategory searchQuery in
    if (length filtered =? 0)%nat then EmptyState
    else NewsCards filtered.

(** ** Vocabulary of the specification

    The specification speaks of the items a feed holds, of those that
    qualify (they have a title and a link), and of the article that an
    item yields.  These are the pieces of [rss_callback] and
    [atom_callback], named. *)

Inductive Dialect := RSS | Atom.

Definition element_selector (d : Dialect) : Selector :=
  match d with
  | RSS => ByTag "item"
  | Atom => ByTag "entry"
  end.

(** The [item] (or [entry]) elements of a document, in document order. *)
Definition elements_of (d : Dialect) (xml : Document) : list Node :=
  document_querySelectorAll (element_selector d) xml.

Definition title_of (d : Dialect) (el : Node) : option string :=
  trimmed_text (ByTag "title") el.

Definition link_of (d : Dialect) (el : Node) : option string :=
  match d with
  | RSS => trimmed_text (ByTag "link") el
  | Atom => querySelector (ByTagWithAttr "link" "href") el ≫= getAttribute "href"
  end.

(** The text of the publish timestamp field. *)
Definition date_text_of (d : Dialect) (el : Node) : option string :=
  match d with
  | RSS => trimmed_text (ByTag "pubDate") el
  | Atom => Js.or (trimmed_text (ByTag "published") el)
                  (trimmed_text (ByTag "updated") el)
  end.

(** The text of the description (RSS) or of the summary, else of the
    content (Atom). *)
Definition body_text_of (d : Dialect) (el : Node) : option string :=
  match d with
  | RSS => trimmed_text (ByTag "description") el
  | Atom => Js.or (trimmed_text (ByTag "summary") el)
                  (trimmed_text (ByTag "content") el)
  end.

(** An element qualifies when [title && link] holds. *)
Definition qualifies (d : Dialect) (el : Node) : bool :=
  truthy (title_of d el) && truthy (link_of d el).

Definition qualifying (d : Dialect) (xml : Document) : list Node :=
  List.filter (qualifies d) (elements_of d xml).

(** The article pushed for a qualifying element, given its date. *)
Definition article_of (h : Host) (source : FeedSource.t) (d : Dialect)
    (el : Node) (date : Date) : Article.t :=
  Article.make (value (title_of d el)) (value (link_of d el)) date
    (slice 0 200 (strip_html h (or_str (body_text_of d el) "")))
    (FeedSource.name source) (FeedSource.category source)
    (FeedSource.color source).

(** The dialect whose elements end up in [items]: Atom when no RSS item
    qualifies. *)
Definition dialect_used (xml : Document) : Dialect :=
  match qualifying RSS xml with
  | [] => Atom
  | _ => RSS
  end.

(** The queries a parse makes on the document, by the dialect used. *)
Definition queries_for (d : Dialect) : list Selector :=
  match d with
  | RSS => [ByTag "item"]
  | Atom => [ByTag "item"; ByTag "entry"]
  end.

(** A date that comes from the timestamp text [text], for a parse whose
    clock readings are those numbered from [lo] to below [hi]: the
    date [new Date(text)] when the text is there and not empty, else a
    reading of the clock. *)
Definition timestamp_from (h : Host) (clk : Clock) (lo hi : nat)
    (text : option string) (date : Date) : Prop :=
  if truthy text then date = new_Date_from h (value text)
  else ∃ k, lo ≤ k < hi ∧ date = Some (clk k).

(** Article [a] is the one emitted for element [el]. *)
Definition emitted_for (h : Host) (clk : Clock) (source : FeedSource.t)
    (d : Dialect) (lo hi : nat) (a : Article.t) (el : Node) : Prop :=
  ∃ date, a = article_of h source d el date
          ∧ timestamp_from h clk lo hi (date_text_of d el) date.

Definition callback_of (d : Dialect) :=
  match d with
  | RSS => rss_callback
  | Atom => atom_callback
  end.

(** What a relay gives for a request: the body, when the request
    resolves with a 2xx status and the body can be read; nothing when
    the request fails (network error, time-out), when the status is
    not 2xx, or when reading the body fails. *)
Definition proxy_body (h : Host) (proxyUrl : string) : option string :=
  match fetch_result h proxyUrl with
  | Normal res =>
      if ok res then
        match text res with
        | Normal body => Some body
        | Throw _ => None
        end
      else None
  | Throw _ => None
  end.

(** The URLs that [fetchWithProxy] may request for a target, in order. *)
Definition proxy_urls (url : string) : list string :=
  (λ proxyFn : string → string, proxyFn url) <$> CORS_PROXIES.

(** The list that [getFallbackArticles] returns when called at the
    [t]-th reading of the clock. *)
Definition fallback_list (clk : Clock) (t : nat) : list Article.t :=
  match run (getFallbackArticles clk) t with
  | Normal l => l
  | Throw _ => []
  end.

(** The articles that the pipeline of a source contributes. *)
Definition articles_from (h : Host) (source : FeedSource.t) : list Article.t :=
  match pipeline h source with
  | Normal l => l
  | Throw _ => []
  end.

(** The ways the pipeline of a source fails: no relay gives a body,
    or the body is empty, or the parser finds no article in it. *)
Definition source_fails (h : Host) (source : FeedSource.t) : Prop :=
  ∃ xmlText,
    run (fetchWithProxy h (FeedSource.url source)) [] = Normal xmlText
    ∧ (xmlText = None
       ∨ xmlText = Some EmptyString
       ∨ run (parseRSSItems h (clock h (Parsing source)) (value xmlText) source)
             parse_start = Normal []).

(** [a.pubDate >= b.pubDate], which is false when a date is invalid. *)
Definition at_least_as_recent (a b : Article.t) : Prop :=
  match Article.pubDate a, Article.pubDate b with
  | Some ta, Some tb => (tb ≤ ta)%Z
  | _, _ => False
  end.

Definition has_valid_date (a : Article.t) : Prop :=
  is_valid (Article.pubDate a) = true.

Definition has_key (k : string) (a : Article.t) : bool :=
  String.eqb (dedup_key a) k.

(** The state a run of [fetchNews] starts from. *)
Definition start_of (v : ViewState) : Run := {| view := v; reads := 0 |}.

(** ** A concrete host

    A host to run the program on: its [Date] accepts the date-time
    form [YYYY-MM-DDTHH:mm:ssZ] of ECMAScript and gives NaN for
    anything else, as the standard asks for text that is not a date;
    its [innerHTML] drops the tags; its XML parser and its network are
    given by tables. *)

Module Sample.

Definition digit (c : ascii) : option Z :=
  let n := code c in
  if ((48 <=? n) && (n <=? 57))%nat then Some (Z.of_nat (n - 48)) else None.

Fixpoint digits (n : nat) (s : string) (acc : Z) : option (Z * string) :=
  match n with
  | O => Some (acc, s)
  | S n' =>
      match s with
      | EmptyString => None
      | String c s' => d ← digit c; digits n' s' (acc * 10 + d)%Z
      end
  end.

Definition expect (c : ascii) (s : string) : option string :=
  match s with
  | EmptyString => None
  | String c' s' => if Ascii.eqb c c' then Some s' else None
  end.

Definition is_leap (y : Z) : bool :=
  ((y mod 4 =? 0) && (negb (y mod 100 =? 0) || (y mod 400 =? 0)))%Z.

Definition days_in_month (y m : Z) : Z :=
  if (m =? 2)%Z then (if is_leap y then 29 else 28)%Z
  else if ((m =? 4) || (m =? 6) || (m =? 9) || (m =? 11))%Z then 30%Z
  else 31%Z.

(** Days from 1970-01-01 to the given civil date. *)
Definition days_from_civil (y m d : Z) : Z :=
  let y' := (if m <=? 2 then y - 1 else y)%Z in
  let era := (y' / 400)%Z in
  let yoe := (y' - era * 400)%Z in
  let mp := (if m >? 2 then m - 3 else m + 9)%Z in
  let doy := ((153 * mp + 2) / 5 + d - 1)%Z in
  let doe := (yoe * 365 + yoe / 4 - yoe / 100 + doy)%Z in
  (era * 146097 + doe - 719468)%Z.

Definition iso_Date_parse (s : string) : option Z :=
  '(y, s) ← digits 4 s 0%Z;
  s ← expect "-" s;
  '(m, s) ← digits 2 s 0%Z;
  s ← expect "-" s;
  '(d, s) ← digits 2 s 0%Z;
  s ← expect "T" s;
  '(hh, s) ← digits 2 s 0%Z;
  s ← expect ":" s;
  '(mm, s) ← digits 2 s 0%Z;
  s ← expect ":" s;
  '(ss, s) ← digits 2 s 0%Z;
  s ← expect "Z" s;
  if is_empty s
     && ((1 <=? m) && (m <=? 12) && (1 <=? d) && (d <=? days_in_month y m)
         && (hh <=? 23) && (mm <=? 59) && (ss <=? 59))%Z
  then Some ((((days_from_civil y m d * 24 + hh) * 60 + mm) * 60 + ss) * 1000)%Z
  else None.

Fixpoint strip_tags (inside : bool) (s : string) : string :=
  match s with
  | EmptyString => EmptyString
  | String c s' =>
      if inside then strip_tags (negb (Ascii.eqb c ">")) s'
      else if Ascii.eqb c "<" then strip_tags true s'
      else String c (strip_tags false s')
  end.

Definition text_innerHTML (s : string) : list Node :=
  match strip_tags false s with
  | EmptyString => []
  | t => [Text t]
  end.

Fixpoint assoc {A} (k : string) (table : list (string * A)) : option A :=
  match table with
  | [] => None
  | (k', v) :: rest => if String.eqb k k' then Some v else assoc k rest
  end.

(** What an XML parser returns for text that is not XML. *)
Definition parsererror : Document :=
  [Element "parsererror" [] [Text "XML Parsing Error"]].

Definition steady_clock (a : Activity) : Clock :=
  λ n, (1700000000000 + Z.of_nat n)%Z.

(** The text of a document. *)
Fixpoint to_xml (n : Node) : string :=
  match n with
  | Text d => d
  | Element name attrs cs =>
      "<" +:+ name
      +:+ String.concat "" (map (λ kv, " " +:+ fst kv +:+ "='" +:+ snd kv +:+ "'") attrs)
      +:+ ">" +:+ String.concat "" (map to_xml cs) +:+ "</" +:+ name +:+ ">"
  end.

Definition xml_text (d : Document) : string :=
  String.concat "" (map to_xml d).

(** The parser of the host reads back the documents it is given the
    text of, and answers anything else with a [parsererror] document. *)
Definition parse_among (documents : list Document) (text : string) : Document :=
  default parsererror (List.find (λ d, String.eqb (xml_text d) text) documents).

Definition host (documents : list Document)
    (network : list (string * Outcome Response)) (allSettled : bool) : Host :=
  {| parseFromString := parse_among documents;
     innerHTML := text_innerHTML;
     innerHTML_empty := eq_refl;
     Date_parse := iso_Date_parse;
     fetch_result := λ url,
       default (Throw (TypeError "Failed to fetch")) (assoc url network);
     has_allSettled := allSettled;
     clock := steady_clock |}.

(** Elements without attributes. *)
Definition el (name : string) (children : list Node) : Node :=
  Element name [] children.

Definition leaf (name text : string) : Node := el name [Text text].

Definition rss (items : list Node) : Document :=
  [el "rss" [el "channel" (leaf "title" "Feed" :: items)]].

Definition item (title link pubDate : string) : Node :=
  el "item" [leaf "title" title; leaf "link" link; leaf "pubDate" pubDate].

(** A response with status 200 and the given body. *)
Definition ok_with (body : string) : Outcome Response :=
  Normal {| ok := true; text := Normal body |}.

Definition status_500 : Outcome Response :=
  Normal {| ok := false; text := Normal "Internal Server Error" |}.

(** The URL of a source behind the first and the second relay. *)
Definition via1 (i : nat) : string :=
  match CORS_PROXIES !! 0%nat, RSS_SOURCES !! i with
  | Some proxyFn, Some source => proxyFn (FeedSource.url source)
  | _, _ => ""
  end.

Definition via2 (i : nat) : string :=
  match CORS_PROXIES !! 1%nat, RSS_SOURCES !! i with
  | Some proxyFn, Some source => proxyFn (FeedSource.url source)
  | _, _ => ""
  end.


Definition source (i : nat) : FeedSource.t :=
  default (FeedSource.make "" "" "" "") (RSS_SOURCES !! i).

(** A feed whose first item has a [pubDate] that is no date and whose
    second item has none. *)
Definition undated_feed : Document :=
  rss [item "Launch" "https://a.example/launch" "not a date";
       el "item" [leaf "title" "Recap"; leaf "link" "https://a.example/recap"]].

(** An item with a title, a link and a date, and no description. *)
Definition plain_item (n : string) : Node :=
  item ("Story " +:+ n) ("https://a.example/" +:+ n) "2024-03-01T10:00:00Z".

Definition described_item (n : string) : Node :=
  el "item" [leaf "title" ("Story " +:+ n);
             leaf "link" ("https://a.example/" +:+ n);
             leaf "description" ("About <b>story</b> " +:+ n)].

(** An Atom entry. *)
Definition entry (title href updated : string) : Node :=
  el "entry" [leaf "title" title;
              Element "link" [("href", href)] [];
              leaf "updated" updated].

(** Nine items that qualify, the ninth without a description, followed
    by an entry with a title and a link and no summary. *)
Definition nine_items_feed : Document :=
  rss (map described_item ["1"; "2"; "3"; "4"; "5"; "6"; "7"; "8"]
       ++ [plain_item "9";
           entry "Entry story" "https://a.example/entry" "2024-03-02T10:00:00Z"])%list.

(** A document with an item that has no link, and two entries. *)
Definition mixed_feed : Document :=
  [el "feed" [el "item" [leaf "title" "No link here"];
              entry "First" "https://b.example/1" "2024-02-01T08:00:00Z";
              entry "Second" "https://b.example/2" "2024-02-02T08:00:00Z"]].

Definition parser_host : Host :=
  host [undated_feed; nine_items_feed; mixed_feed] [] true.


(** Feeds for a round of the aggregator.  The second feed repeats a
    headline of the first one, in capitals and with an older date. *)
Definition feed_a : Document :=
  rss [item "Alpha ships" "https://a.example/alpha" "2024-05-01T09:00:00Z";
       item "Beta ships" "https://a.example/beta" "2024-05-02T09:00:00Z"].

Definition feed_b : Document :=
  rss [item "ALPHA SHIPS" "https://b.example/alpha" "2024-04-30T09:00:00Z"].

Definition feed_c : Document :=
  rss [item "Gamma raises" "https://c.example/gamma" "2024-05-03T09:00:00Z"].

Definition feed_d : Document :=
  [el "feed" [entry "Delta opens" "https://d.example/delta" "2024-04-29T09:00:00Z"]].

(** The third source fails (its first relay times out, its second
    answers 500); the second source is served by its second relay; the
    others by their first. *)
Definition isolation_network : list (string * Outcome Response) :=
  [(via1 0, ok_with (xml_text feed_a));
   (via1 1, status_500);
   (via2 1, ok_with (xml_text feed_b));
   (via1 2, Throw (DOMException "TimeoutError"));
   (via2 2, status_500);
   (via1 3, ok_with (xml_text feed_c));
   (via1 4, ok_with (xml_text feed_d))].

Definition isolation_host : Host :=
  host [feed_a; feed_b; feed_c; feed_d] isolation_network true.

(** The same round on an engine without [Promise.allSettled]. *)
Definition legacy_host : Host :=
  host [feed_a; feed_b; feed_c; feed_d] isolation_network false.

(** No relay answers. *)
Definition offline_host : Host := host [] [] true.

(** A feed with a date that is no date between two dates in rising
    order, served for the first source; the other sources fail. *)
Definition unsortable_feed : Document :=
  rss [item "Early" "https://a.example/early" "2024-01-01T00:00:00Z";
       item "Undated" "https://a.example/undated" "not a date";
       item "Late" "https://a.example/late" "2024-06-01T00:00:00Z"].

Definition unsortable_host : Host :=
  host [unsortable_feed] [(via1 0, ok_with (xml_text unsortable_feed))] true.


(** A feed whose second item has the key of the first and a date that
    is no date. *)
Definition shadowed_feed : Document :=
  rss [item "Story" "https://a.example/story" "2024-01-01T00:00:00Z";
       item "STORY" "https://a.example/story-again" "not a date";
       item "Other" "https://a.example/other" "2024-06-01T00:00:00Z"].

Definition shadowed_host : Host :=
  host [shadowed_feed] [(via1 0, ok_with (xml_text shadowed_feed))] true.


(** Civil date of a number of days from 1970-01-01: month and day. *)
Definition month_day_of_days (days : Z) : Z * Z :=
  let z := (days + 719468)%Z in
  let era := (z / 146097)%Z in
  let doe := (z - era * 146097)%Z in
  let yoe := ((doe - doe / 1460 + doe / 36524 - doe / 146096) / 365)%Z in
  let doy := (doe - (365 * yoe + yoe / 4 - yoe / 100))%Z in
  let mp := ((5 * doy + 2) / 153)%Z in
  let d := (doy - (153 * mp + 2) / 5 + 1)%Z in
  let m := (if mp <? 10 then mp + 3 else mp - 9)%Z in
  (m, d).

Definition month_name (m : Z) : string :=
  default "" (["Jan"; "Feb"; "Mar"; "Apr"; "May"; "Jun";
               "Jul"; "Aug"; "Sep"; "Oct"; "Nov"; "Dec"] !! Z.to_nat (m - 1)).

(** [toLocaleDateString] with a short month and the day, in UTC. *)
Definition short_date (d : Date) : string :=
  match d with
  | None => "Invalid Date"
  | Some t =>
      let '(m, day) := month_day_of_days (t / 86400000) in
      month_name m +:+ " " +:+ pretty day
  end.


(** The first relay answers 200 with an empty body; the second would
    give a feed. *)
Definition empty_body_host : Host :=
  host [feed_a]
       [(via1 0, ok_with ""); (via2 0, ok_with (xml_text feed_a))] true.

(** A feed whose third item has the key of the first and a later date,
    with an item between them whose date is no date. *)
Definition overtaken_feed : Document :=
  rss [item "Story" "https://a.example/story" "2024-01-01T00:00:00Z";
       item "Undated" "https://a.example/undated" "not a date";
       item "STORY" "https://a.example/story-again" "2024-02-01T00:00:00Z"].

Definition overtaken_host : Host :=
  host [overtaken_feed] [(via1 0, ok_with (xml_text overtaken_feed))] true.

(** Two sources with an article of one and the same date. *)
Definition feed_e : Document :=
  rss [item "Epsilon lands" "https://b.example/epsilon" "2024-05-01T09:00:00Z"].

Definition tied_host : Host :=
  host [feed_a; feed_e]
       [(via1 0, ok_with (xml_text feed_a)); (via1 1, ok_with (xml_text feed_e))] true.

End Sample.

(** * Verification *)

Local Open Scope nat_scope.

(** ** The parser *)

Section Parser.
Context (h : Host) (clk : Clock) (source : FeedSource.t).

Lemma timestamp_from_mono lo hi lo' hi' text date :
  lo' ≤ lo → hi ≤ hi' →
  timestamp_from h clk lo hi text date →
  timestamp_from h clk lo' hi' text date.
Proof.
  unfold timestamp_from. intros Hlo Hhi.
  destruct (truthy text); [done|].
  intros (k & Hk & ->). exists k. split; [lia|done].
Qed.

Lemma emitted_for_mono d lo hi lo' hi' a el :
  lo' ≤ lo → hi ≤ hi' →
  emitted_for h clk source d lo hi a el →
  emitted_for h clk source d lo' hi' a el.
Proof.
  intros Hlo Hhi (date & -> & Hts). exists date.
  split; [done|]. by eapply timestamp_from_mono.
Qed.

(** [text ? new Date(text) : new Date()] returns, reads the clock at
    most once and leaves the record of queries alone. *)
Lemma date_or_now_run text s :
  ∃ date s',
    date_or_now h clk text s = (Normal date, s')
    ∧ document_queries s' = document_queries s
    ∧ clock_reads s ≤ clock_reads s'
    ∧ timestamp_from h clk (clock_reads s) (clock_reads s') text date.
Proof.
  unfold date_or_now, timestamp_from.
  destruct (truthy text) eqn:Ht.
  - by exists (new_Date_from h (value text)), s.
  - eexists _, _. unfold reading_clock, zoom, new_Date; simpl.
    split; [reflexivity|]. simpl.
    split; [done|]. split; [lia|].
    exists (clock_reads s). split; [lia|done].
Qed.

(** The two callbacks are one: what differs is where the fields are
    read from. *)
Lemma callback_unfold d el items :
  callback_of d h clk source el items =
  if qualifies d el then
    do date <- date_or_now h clk (date_text_of d el);
    ret (push items (article_of h source d el date))
  else ret items.
Proof. by destruct d. Qed.

Lemma callback_run d el items s :
  ∃ s',
    document_queries s' = document_queries s
    ∧ clock_reads s ≤ clock_reads s'
    ∧ if qualifies d el then
        ∃ a, callback_of d h clk source el items s = (Normal (push items a), s')
             ∧ emitted_for h clk source d (clock_reads s) (clock_reads s') a el
      else callback_of d h clk source el items s = (Normal items, s').
Proof.
  rewrite callback_unfold.
  destruct (qualifies d el).
  - destruct (date_or_now_run (date_text_of d el) s)
      as (date & s' & Hrun & Hq & Hc & Hts).
    exists s'. split_and!; [done..|].
    exists (article_of h source d el date). split.
    + unfold bind. by rewrite Hrun.
    + by exists date.
  - exists s. split_and!; done.
Qed.

(** A [forEach] over elements pushes, in order, the articles of those
    that qualify. *)
Lemma forEach_run d els : ∀ items s,
  ∃ new s',
    forEach els (callback_of d h clk source) items s
      = (Normal (items ++ new)%list, s')
    ∧ document_queries s' = document_queries s
    ∧ clock_reads s ≤ clock_reads s'
    ∧ Forall2 (emitted_for h clk source d (clock_reads s) (clock_reads s'))
              new (List.filter (qualifies d) els).
Proof.
  induction els as [|el els IH]; intros items s.
  - exists [], s. rewrite app_nil_r. split_and!; by try constructor.
  - destruct (callback_run d el items s) as (s1 & Hq1 & Hc1 & Hcb).
    simpl. destruct (qualifies d el) eqn:Hqual.
    + destruct Hcb as (a & Hrun & Hem).
      destruct (IH (push items a) s1) as (new & s2 & Hrun2 & Hq2 & Hc2 & Hall).
      exists (a :: new), s2. split_and!.
      * unfold bind at 1. rewrite Hrun, Hrun2. unfold push.
        by rewrite <- app_assoc.
      * congruence.
      * lia.
      * constructor.
        -- eapply emitted_for_mono; [..|exact Hem]; lia.
        -- eapply Forall2_impl; [exact Hall|]. intros a' el' Hem'.
           eapply emitted_for_mono; [..|exact Hem']; lia.
    + destruct (IH items s1) as (new & s2 & Hrun2 & Hq2 & Hc2 & Hall).
      exists new, s2. split_and!.
      * unfold bind at 1. by rewrite Hcb, Hrun2.
      * congruence.
      * lia.
      * eapply Forall2_impl; [exact Hall|]. intros a' el' Hem'.
        eapply emitted_for_mono; [..|exact Hem']; lia.
Qed.

Lemma Forall2_emitted_nil_r d lo hi new :
  Forall2 (emitted_for h clk source d lo hi) new [] → new = [].
Proof. by inversion 1. Qed.

(** What a parse does: it returns; it queries the document for the
    items and, when none of them qualifies, for the entries; the
    articles it returns are those of the first eight qualifying
    elements of the dialect used. *)
Lemma parseRSSItems_run xmlText s :
  let xml := parseFromString h xmlText in
  let d := dialect_used xml in
  ∃ out s',
    parseRSSItems h clk xmlText source s = (Normal out, s')
    ∧ document_queries s' = (document_queries s ++ queries_for d)%list
    ∧ clock_reads s ≤ clock_reads s'
    ∧ Forall2 (emitted_for h clk source d (clock_reads s) (clock_reads s'))
              out (take 8 (qualifying d xml)).
Proof.
  intros xml d. unfold parseRSSItems. fold xml.
  set (s0 := {| clock_reads := clock_reads s;
                document_queries := push (document_queries s) (ByTag "item") |}).
  destruct (forEach_run RSS (elements_of RSS xml) [] s0)
    as (new & s1 & Hrun1 & Hq1 & Hc1 & Hall1).
  fold (qualifying RSS xml) in Hall1.
  unfold bind at 1. unfold xml_querySelectorAll at 1. fold s0.
  unfold bind at 1. cbn [callback_of] in Hrun1.
  unfold elements_of, element_selector in Hrun1. rewrite Hrun1.
  rewrite app_nil_l.
  subst d. unfold dialect_used.
  destruct (qualifying RSS xml) as [|q qs] eqn:Hqs.
  - apply Forall2_emitted_nil_r in Hall1 as ->.
    set (s2 := {| clock_reads := clock_reads s1;
                  document_queries := push (document_queries s1) (ByTag "entry") |}).
    destruct (forEach_run Atom (elements_of Atom xml) [] s2)
      as (new & s3 & Hrun3 & Hq3 & Hc3 & Hall3).
    fold (qualifying Atom xml) in Hall3.
    cbn [callback_of] in Hrun3.
    unfold elements_of, element_selector in Hrun3.
    exists (slice_array 0 8 new), s3.
    split_and!.
    + cbn [length Nat.eqb]. unfold bind at 1 2.
      unfold xml_querySelectorAll at 1. fold s2. rewrite Hrun3.
      by rewrite app_nil_l.
    + rewrite Hq3. subst s2 s0. cbn in *. rewrite Hq1. cbn.
      unfold push. by rewrite <- app_assoc.
    + subst s2 s0. cbn in *. lia.
    + unfold slice_array. rewrite drop_0. apply Forall2_take.
      eapply Forall2_impl; [exact Hall3|]. intros a' el' Hem'.
      eapply emitted_for_mono; [..|exact Hem']; subst s2 s0; cbn in *; lia.
  - exists (slice_array 0 8 new), s1.
    assert (new ≠ []) as Hne by (intros ->; inversion Hall1).
    rewrite <- Hqs in Hall1.
    split_and!.
    + destruct new as [|a new']; [done|]. cbn [length Nat.eqb].
      by unfold bind, ret.
    + rewrite Hq1. by subst s0.
    + by subst s0.
    + unfold slice_array. rewrite drop_0. apply Forall2_take.
      eapply Forall2_impl; [exact Hall1|]. intros a' el' Hem'.
      eapply emitted_for_mono; [..|exact Hem']; subst s0; cbn in *; lia.
Qed.

End Parser.

(** *** Facts about the vocabulary *)






Lemma qualifying_nil d xml :
  qualifying d xml = [] ↔
  Forall (λ el, qualifies d el = false) (elements_of d xml).
Proof.
  unfold qualifying. induction (elements_of d xml) as [|el els IH]; simpl.
  - split; [constructor|done].
  - destruct (qualifies d el) eqn:Hq.
    + split; [done|]. inversion 1; congruence.
    + rewrite IH. split; [by constructor|by inversion 1].
Qed.



Lemma dialect_used_RSS xml :
  dialect_used xml = RSS ↔ qualifying RSS xml ≠ [].
Proof. unfold dialect_used. by destruct (qualifying RSS xml). Qed.

Lemma dialect_used_Atom xml :
  dialect_used xml = Atom ↔ qualifying RSS xml = [].
Proof. unfold dialect_used. by destruct (qualifying RSS xml). Qed.

(** *** The claims about the parser *)

(** C6.  For every input text and source the parser returns, and it
    returns at most eight articles: they are, one for one and in
    document order, the articles of the first eight qualifying elements
    that the input yields (all of them when there are fewer), so
    exactly eight when it yields more than eight. *)
Theorem parseRSSItems_first_eight
    (h : Host) (clk : Clock) (xmlText : string) (source : FeedSource.t)
    (s : ParseState) :
  let xml := parseFromString h xmlText in
  let d := dialect_used xml in
  ∃ out s',
    parseRSSItems h clk xmlText source s = (Normal out, s')
    ∧ length out ≤ 8
    ∧ length out = min 8 (length (qualifying d xml))
    ∧ Forall2 (emitted_for h clk source d (clock_reads s) (clock_reads s'))
              out (take 8 (qualifying d xml)).
Proof.
  intros xml d.
  destruct (parseRSSItems_run h clk source xmlText s)
    as (out & s' & Hrun & _ & _ & Hall).
  exists out, s'. fold xml d in Hall.
  assert (length out = min 8 (length (qualifying d xml))) as Hlen.
  { rewrite (Forall2_length _ _ _ Hall). apply length_take. }
  split_and!; [done|lia|done|done].
Qed.

(** C10.  The parser queries the document for [entry] elements exactly
    when no [item] element qualifies, which includes the case where
    there are items and each lacks a title or a link; and its output is
    of one dialect: the articles of qualifying items when there is one,
    the articles of qualifying entries otherwise. *)
Theorem parseRSSItems_one_dialect
    (h : Host) (clk : Clock) (xmlText : string) (source : FeedSource.t)
    (s : ParseState) :
  let xml := parseFromString h xmlText in
  ∃ out s' queries,
    parseRSSItems h clk xmlText source s = (Normal out, s')
    ∧ document_queries s' = (document_queries s ++ queries)%list
    ∧ (ByTag "entry" ∈ queries ↔ qualifying RSS xml = [])
    ∧ (ByTag "entry" ∈ queries ↔
       Forall (λ item, truthy (title_of RSS item) && truthy (link_of RSS item) = false)
              (elements_of RSS xml))
    ∧ ((qualifying RSS xml ≠ []
        ∧ Forall2 (emitted_for h clk source RSS (clock_reads s) (clock_reads s'))
                  out (take 8 (qualifying RSS xml)))
       ∨ (qualifying RSS xml = []
          ∧ Forall2 (emitted_for h clk source Atom (clock_reads s) (clock_reads s'))
                    out (take 8 (qualifying Atom xml)))).
Proof.
  intros xml.
  destruct (parseRSSItems_run h clk source xmlText s)
    as (out & s' & Hrun & Hq & _ & Hall).
  fold xml in Hq, Hall.
  exists out, s', (queries_for (dialect_used xml)).
  assert (ByTag "entry" ∈ queries_for (dialect_used xml)
          ↔ qualifying RSS xml = []) as Hentry.
  { rewrite <- dialect_used_Atom. destruct (dialect_used xml); simpl.
    - split; [|done]. intros Hin. apply list_elem_of_In in Hin.
      destruct Hin as [Heq|[]]. discriminate.
    - split; [done|]. intros _. apply list_elem_of_In. right. by left. }
  split_and!; [done|done|done| |].
  - rewrite Hentry. apply qualifying_nil.
  - destruct (dialect_used xml) eqn:Hd.
    + left. split; [by apply dialect_used_RSS|done].
    + right. split; [by apply dialect_used_Atom|done].
Qed.

(** C1, as amended.  For every article the parser emits: when the
    publish timestamp field of its element is missing or empty, the
    article's date is a reading of the clock made during the parse, a
    valid date; when the field has text, the date is [new Date(text)],
    whatever that is, so an invalid date when the text is not
    parseable. *)
Theorem parseRSSItems_timestamps
    (h : Host) (clk : Clock) (xmlText : string) (source : FeedSource.t)
    (s : ParseState) :
  let xml := parseFromString h xmlText in
  let d := dialect_used xml in
  ∃ out s',
    parseRSSItems h clk xmlText source s = (Normal out, s')
    ∧ Forall2
        (λ a el,
           let text := date_text_of d el in
           (truthy text = false →
            ∃ k, clock_reads s ≤ k < clock_reads s'
                 ∧ Article.pubDate a = Some (clk k)
                 ∧ is_valid (Article.pubDate a) = true)
           ∧ (truthy text = true →
              Article.pubDate a = new_Date_from h (value text)
              ∧ is_valid (Article.pubDate a)
                = bool_decide (is_Some (Date_parse h (value text)))))
        out (take 8 (qualifying d xml)).
Proof.
  intros xml d.
  destruct (parseRSSItems_run h clk source xmlText s)
    as (out & s' & Hrun & _ & _ & Hall).
  exists out, s'. split; [done|]. fold xml d in Hall.
  eapply Forall2_impl; [exact Hall|].
  intros a el (date & -> & Hts). unfold timestamp_from in Hts. simpl.
  split; intros Ht; rewrite Ht in Hts.
  - destruct Hts as (k & Hk & ->). by exists k.
  - subst date. split; [done|]. unfold new_Date_from.
    destruct (Date_parse h _) eqn:Hp; simpl;
      first [reflexivity
            | symmetry; apply bool_decide_eq_false; by intros [? ?]
            | symmetry; apply bool_decide_eq_true; by eexists].
Qed.

(** C1, the counterexample.  A feed item with the text [not a date] in
    its [pubDate] is emitted with an invalid date. *)
Lemma parseRSSItems_keeps_invalid_date :
  ∃ a b,
    run (parseRSSItems Sample.parser_host (clock Sample.parser_host (Parsing (Sample.source 0)))
           (Sample.xml_text Sample.undated_feed) (Sample.source 0))
        parse_start
    = Normal [a; b]
    ∧ Article.title a = "Launch"%string
    ∧ date_text_of RSS (Sample.item "Launch" "https://a.example/launch" "not a date")
      = Some "not a date"%string
    ∧ Date_parse Sample.parser_host "not a date" = None
    ∧ Article.pubDate a = None
    ∧ is_valid (Article.pubDate a) = false.
Proof. eexists _, _. vm_compute. split_and!; reflexivity. Qed.



(** ** The relay fetcher *)

(** One round of the loop: the relay is requested; its body is
    returned when there is one, and the loop goes on otherwise. *)
Lemma for_of_proxies_round h url proxyFn rest requests :
  for_of_proxies h url (proxyFn :: rest) requests =
  match proxy_body h (proxyFn url) with
  | Some body => (Normal (Some body), push requests (proxyFn url))
  | None => for_of_proxies h url rest (push requests (proxyFn url))
  end.
Proof.
  unfold proxy_body. cbn [for_of_proxies].
  unfold bind, try_catch, fetch, await, ret.
  destruct (fetch_result h (proxyFn url)) as [res|e]; [|done].
  destruct (ok res); [|done].
  by destruct (text res).
Qed.

Lemma for_of_proxies_run h url proxies : ∀ requests,
  let urls := (λ proxyFn : string → string, proxyFn url) <$> proxies in
  ∃ result made,
    for_of_proxies h url proxies requests = (Normal result, (requests ++ made)%list)
    ∧ ((∃ i u body,
          urls !! i = Some u
          ∧ proxy_body h u = Some body
          ∧ Forall (λ u', proxy_body h u' = None) (take i urls)
          ∧ made = take (S i) urls
          ∧ result = Some body)
       ∨ (Forall (λ u', proxy_body h u' = None) urls
          ∧ made = urls
          ∧ result = None)).
Proof.
  induction proxies as [|proxyFn rest IH]; intros requests urls.
  - exists None, []. rewrite app_nil_r. split; [done|]. right.
    split_and!; [constructor|done..].
  - rewrite for_of_proxies_round. subst urls. cbn [fmap list_fmap].
    destruct (proxy_body h (proxyFn url)) as [body|] eqn:Hbody.
    + exists (Some body), [proxyFn url]. split; [done|]. left.
      exists 0, (proxyFn url), body. split_and!; by try constructor.
    + destruct (IH (push requests (proxyFn url))) as (result & made & Hrun & Hcases).
      exists result, (proxyFn url :: made). split.
      { rewrite Hrun. unfold push. by rewrite <- app_assoc. }
      destruct Hcases as [(i & u & body & Hi & Hu & Hfail & -> & ->)
                         |(Hfail & -> & ->)].
      * left. exists (S i), u, body. split_and!; try done.
        cbn [take]. by constructor.
      * right. split_and!; by try constructor.
Qed.

(** A relay fails in one of three ways. *)
Lemma proxy_body_None h u :
  proxy_body h u = None ↔
  (∃ e, fetch_result h u = Throw e)
  ∨ (∃ res, fetch_result h u = Normal res
            ∧ (ok res = false ∨ ∃ e, text res = Throw e)).
Proof.
  unfold proxy_body. destruct (fetch_result h u) as [res|e].
  - destruct (ok res) eqn:Hok, (text res) as [body|e] eqn:Htext.
    + split; [done|]. intros [[e ?]|(res' & [= <-] & [?|[e ?]])]; congruence.
    + split; [|done]. intros _. right. exists res. eauto.
    + split; [|done]. intros _. right. exists res. eauto.
    + split; [|done]. intros _. right. exists res. eauto.
  - split; [|done]. intros _. left. by exists e.
Qed.

(** The two relay URLs of a target differ. *)
Lemma proxy_urls_NoDup url : NoDup (proxy_urls url).
Proof.
  unfold proxy_urls, CORS_PROXIES. cbn [fmap list_fmap].
  apply NoDup_cons. split; [|apply NoDup_singleton].
  intros Hin%list_elem_of_singleton. cbn in Hin. discriminate Hin.
Qed.

(** C8.  For every target URL [fetchWithProxy] returns, never throws,
    and requests the relays in their order, each at most once: either
    some relay is the first to give a body (a 2xx response whose text
    arrives), the relays before it have failed, those after it are not
    requested and its body is the result; or every relay has been
    requested once and has failed (the request or the reading of the
    body rejected on a network error or a time-out, or the status was
    not 2xx), and the result is [null]. *)
Theorem fetchWithProxy_first_success (h : Host) (url : string) (requests : list string) :
  ∃ result made,
    fetchWithProxy h url requests = (Normal result, (requests ++ made)%list)
    ∧ NoDup made
    ∧ ((∃ i u body,
          proxy_urls url !! i = Some u
          ∧ proxy_body h u = Some body
          ∧ Forall (λ u', proxy_body h u' = None) (take i (proxy_urls url))
          ∧ made = take (S i) (proxy_urls url)
          ∧ result = Some body)
       ∨ (Forall (λ u', proxy_body h u' = None) (proxy_urls url)
          ∧ made = proxy_urls url
          ∧ result = None)).
Proof.
  destruct (for_of_proxies_run h url CORS_PROXIES requests)
    as (result & made & Hrun & Hcases).
  exists result, made. split_and!; [exact Hrun| |exact Hcases].
  destruct Hcases as [(i & u & body & _ & _ & _ & -> & _)|(_ & -> & _)].
  - eapply sublist_NoDup; [apply proxy_urls_NoDup|apply sublist_take].
  - apply proxy_urls_NoDup.
Qed.

(** ** Sorting *)

Section Sort.
Context {A : Type} (cmp : A → A → option Z).

Lemma sort_insert_perm x l : sort_insert cmp x l ≡ₚ x :: l.
Proof.
  induction l as [|y l IH]; simpl; [done|].
  destruct (0 <? sort_compare cmp x y)%Z; [|done].
  rewrite IH. apply perm_swap.
Qed.

Lemma sort_perm l : sort cmp l ≡ₚ l.
Proof.
  induction l as [|x l IH]; simpl; [done|].
  by rewrite sort_insert_perm, IH.
Qed.

Lemma elem_of_sort x l : x ∈ sort cmp l ↔ x ∈ l.
Proof. by rewrite sort_perm. Qed.

(** With a comparator that agrees with a total preorder [R] on the
    elements at hand, the result is sorted by [R]. *)
Context (R : A → A → Prop) (valid : A → Prop).
Context (R_trans : ∀ x y z, R x y → R y z → R x z).
Context (cmp_R : ∀ x y, valid x → valid y →
                   if (0 <? sort_compare cmp x y)%Z then R y x else R x y).

Lemma sort_insert_sorted x l :
  valid x → Forall valid l →
  StronglySorted R l → StronglySorted R (sort_insert cmp x l).
Proof.
  intros Hx Hl Hs. induction Hs as [|y l Hs IH Hy]; simpl.
  - repeat constructor.
  - apply Forall_cons in Hl as [Hvy Hl].
    pose proof (cmp_R x y Hx Hvy) as Hxy.
    destruct (0 <? sort_compare cmp x y)%Z.
    + constructor; [by apply IH|].
      rewrite sort_insert_perm. by constructor.
    + constructor; [by constructor|].
      constructor; [done|].
      eapply Forall_impl; [exact Hy|]. intros z Hz. by eapply R_trans.
Qed.

Lemma sort_sorted l : Forall valid l → StronglySorted R (sort cmp l).
Proof.
  induction 1 as [|x l Hx Hl IH]; simpl; [constructor|].
  apply sort_insert_sorted; [done| |done].
  by rewrite sort_perm.
Qed.

End Sort.

Lemma at_least_as_recent_trans a b c :
  at_least_as_recent a b → at_least_as_recent b c → at_least_as_recent a c.
Proof.
  unfold at_least_as_recent.
  destruct (Article.pubDate a), (Article.pubDate b), (Article.pubDate c);
    try done. lia.
Qed.

Lemma at_least_as_recent_refl a : has_valid_date a → at_least_as_recent a a.
Proof.
  unfold has_valid_date, at_least_as_recent.
  destruct (Article.pubDate a); [lia|done].
Qed.

Lemma newest_first_order a b :
  has_valid_date a → has_valid_date b →
  if (0 <? sort_compare newest_first a b)%Z
  then at_least_as_recent b a else at_least_as_recent a b.
Proof.
  unfold has_valid_date, at_least_as_recent, sort_compare, newest_first, date_sub.
  destruct (Article.pubDate a), (Article.pubDate b); try done.
  intros _ _. destruct (0 <? _)%Z eqn:Hlt; [apply Z.ltb_lt in Hlt|apply Z.ltb_ge in Hlt]; lia.
Qed.

(** Sorting articles that all have a valid date puts them most recent
    first. *)
Lemma sort_newest_first l :
  Forall has_valid_date l →
  StronglySorted at_least_as_recent (sort newest_first l).
Proof.
  apply sort_sorted.
  - apply at_least_as_recent_trans.
  - apply newest_first_order.
Qed.

(** ** De-duplication *)

Lemma filter_with_unseen_sublist l : ∀ seen,
  filter_with unseen l seen `sublist_of` l.
Proof.
  induction l as [|a l IH]; intros seen; simpl; [done|].
  unfold unseen at 1. case_bool_decide.
  - by apply sublist_cons.
  - by apply sublist_skip.
Qed.

Lemma filter_with_unseen_keys l : ∀ seen a,
  a ∈ filter_with unseen l seen → dedup_key a ∉ seen.
Proof.
  induction l as [|x l IH]; intros seen a; simpl; [by intros ?%elem_of_nil|].
  unfold unseen at 1. case_bool_decide as Hx.
  - apply IH.
  - intros [->|Hin]%elem_of_cons; [done|].
    apply IH in Hin. set_solver.
Qed.

Lemma filter_with_unseen_NoDup l : ∀ seen,
  NoDup (dedup_key <$> filter_with unseen l seen).
Proof.
  induction l as [|x l IH]; intros seen; simpl; [constructor|].
  unfold unseen at 1. case_bool_decide as Hx; [apply IH|].
  cbn [fmap list_fmap]. constructor; [|apply IH].
  intros (b & Hkey & Hb)%list_elem_of_fmap.
  apply filter_with_unseen_keys in Hb. set_solver.
Qed.

(** For a key not seen yet, the article kept with that key is the first
    one of the list with it. *)
Lemma filter_with_unseen_first l : ∀ seen k,
  k ∉ seen →
  List.find (has_key k) (filter_with unseen l seen) = List.find (has_key k) l.
Proof.
  induction l as [|x l IH]; intros seen k Hk; [done|].
  cbn [filter_with List.find].
  destruct (has_key k x) eqn:Hkx.
  - assert (dedup_key x = k) as Hkey by (by apply String.eqb_eq).
    unfold unseen. rewrite bool_decide_eq_false_2 by (by rewrite Hkey).
    cbn [List.find]. by rewrite Hkx.
  - assert (dedup_key x ≠ k) as Hkey by (by apply String.eqb_neq).
    unfold unseen. case_bool_decide as Hx.
    + by apply IH.
    + cbn [List.find]. rewrite Hkx. apply IH.
      intros [Hin|Hin]%elem_of_union; [|done].
      apply elem_of_singleton in Hin. congruence.
Qed.

Lemma find_has_key_elem k l a :
  a ∈ l → dedup_key a = k → ∃ b, List.find (has_key k) l = Some b.
Proof.
  intros Hin Hk. destruct (List.find (has_key k) l) as [b|] eqn:Hf; [by eexists|].
  apply list_elem_of_In in Hin.
  pose proof (find_none _ _ Hf a Hin) as Hn.
  unfold has_key in Hn. rewrite Hk, String.eqb_refl in Hn. discriminate.
Qed.

Lemma find_has_key_Some k l b :
  List.find (has_key k) l = Some b → b ∈ l ∧ dedup_key b = k.
Proof.
  intros [Hin Hk]%find_some. split; [by apply list_elem_of_In|].
  unfold has_key in Hk. by apply String.eqb_eq.
Qed.

(** In a list sorted by a relation that is reflexive on its elements,
    the first element with a property comes before, in the relation,
    any element with it. *)
Lemma find_first_sorted {A} (R : A → A → Prop) (P : A → bool) l a b :
  StronglySorted R l → Forall (λ x, R x x) l →
  List.find P l = Some a → b ∈ l → P b = true → R a b.
Proof.
  induction 1 as [|x l Hs IH Hx]; intros Hrefl Hf Hb HP; [by apply elem_of_nil in Hb|].
  apply Forall_cons in Hrefl as [Hxx Hrefl]. simpl in Hf.
  apply elem_of_cons in Hb as [->|Hb].
  - rewrite HP in Hf. by simplify_eq.
  - destruct (P x).
    + simplify_eq. rewrite Forall_forall in Hx. by apply Hx.
    + by apply IH.
Qed.

Lemma sublist_StronglySorted {A} (R : A → A → Prop) l1 l2 :
  StronglySorted R l2 → l1 `sublist_of` l2 → StronglySorted R l1.
Proof.
  intros Hs Hsub. revert Hs.
  induction Hsub as [|x l1 l2 Hsub IH|x l1 l2 Hsub IH]; intros Hs.
  - constructor.
  - apply StronglySorted_inv in Hs as [Hs Hx].
    constructor; [by apply IH|].
    apply Forall_forall. intros y Hy. rewrite Forall_forall in Hx.
    apply Hx. by eapply sublist_subseteq.
  - apply StronglySorted_inv in Hs as [Hs _]. by apply IH.
Qed.

(** ** The aggregator *)

Lemma getFallbackArticles_run clk t :
  getFallbackArticles clk t = (Normal (fallback_list clk t), 12 + t).
Proof. reflexivity. Qed.

Lemma fallback_list_length clk t : length (fallback_list clk t) = 12.
Proof. reflexivity. Qed.

(** What a run of [fetchNews] leaves in the state variables. *)
Lemma fetchNews_run h r :
  let clk := clock h Refreshing in
  ∃ r',
    fetchNews h r = (Normal tt, r')
    ∧ view r' =
      match Promise_allSettled h (map (pipeline h) RSS_SOURCES) with
      | Normal results =>
          match unique_articles (all_articles results) with
          | [] =>
              {| articles := fallback_list clk (reads r); loading := false;
                 error := None;
                 lastUpdated := Some (Some (clk (12 + reads r))) |}
          | unique =>
              {| articles := unique; loading := false; error := None;
                 lastUpdated := Some (Some (clk (reads r))) |}
          end
      | Throw _ =>
          {| articles := fallback_list clk (reads r); loading := false;
             error := Some error_message;
             lastUpdated := Some (Some (clk (12 + reads r))) |}
      end.
Proof.
  intros clk. unfold fetchNews. fold clk.
  unfold bind at 1 2. unfold setLoading at 1. unfold setError at 1.
  unfold on_view at 1 2. unfold modify at 1 2.
  unfold try_finally, try_catch. unfold bind at 1. unfold await.
  destruct (Promise_allSettled h (map (pipeline h) RSS_SOURCES)) as [results|e].
  - destruct (unique_articles (all_articles results)) as [|a unique] eqn:Hu.
    + eexists. split; reflexivity.
    + eexists. split; reflexivity.
  - eexists. split; reflexivity.
Qed.

(** The promise of a pipeline is never rejected. *)
Lemma pipeline_normal h source : ∃ l, pipeline h source = Normal l.
Proof.
  unfold pipeline, run.
  destruct (for_of_proxies_run h (FeedSource.url source) CORS_PROXIES [])
    as (result & made & Hrun & _).
  unfold fetchWithProxy. rewrite Hrun. simpl.
  destruct (negb (truthy result)); [by eexists|].
  destruct (parseRSSItems_run h (clock h (Parsing source)) source
              (value result) parse_start) as (out & s' & -> & _).
  by eexists.
Qed.

Lemma pipeline_articles_from h source :
  pipeline h source = Normal (articles_from h source).
Proof.
  unfold articles_from. by destruct (pipeline_normal h source) as [l ->].
Qed.

(** A source that fails contributes the empty list. *)
Lemma source_fails_articles_from h source :
  source_fails h source → articles_from h source = [].
Proof.
  intros (xmlText & Hfetch & Hcases). unfold articles_from, pipeline.
  rewrite Hfetch.
  destruct Hcases as [->|[->|Hparse]]; [done..|].
  destruct (negb (truthy xmlText)); [done|]. by rewrite Hparse.
Qed.

Lemma Promise_allSettled_results h {A} (promises : list (Outcome A)) results :
  Promise_allSettled h promises = Normal results →
  has_allSettled h = true ∧ results = settle <$> promises.
Proof.
  unfold Promise_allSettled. destruct (has_allSettled h); [|done].
  intros [= <-]. done.
Qed.

(** All the promises of the fan-out are fulfilled, so what is sorted is
    the contributions of the sources, in the order of the sources. *)
Lemma merged_contributions h sources :
  flat_map value_of (List.filter is_fulfilled (settle <$> map (pipeline h) sources))
  = flat_map (articles_from h) sources.
Proof.
  induction sources as [|source sources IH]; [done|].
  cbn [map fmap list_fmap]. rewrite pipeline_articles_from.
  cbn [settle List.filter is_fulfilled flat_map value_of].
  f_equal. exact IH.
Qed.

Lemma all_articles_contributions h sources :
  all_articles (settle <$> map (pipeline h) sources)
  = sort newest_first (flat_map (articles_from h) sources).
Proof. unfold all_articles. by rewrite merged_contributions. Qed.

Lemma unique_articles_elem a l : a ∈ unique_articles l → a ∈ l.
Proof.
  unfold unique_articles. intros Hin.
  by eapply sublist_subseteq; [apply filter_with_unseen_sublist|].
Qed.

(** Every article of the live result is an article that the pipeline
    of some source has contributed. *)
Lemma unique_articles_live h sources a :
  a ∈ unique_articles (all_articles (settle <$> map (pipeline h) sources)) →
  ∃ source, source ∈ sources ∧ a ∈ articles_from h source.
Proof.
  intros Hin%unique_articles_elem.
  rewrite all_articles_contributions, elem_of_sort in Hin.
  apply list_elem_of_In, in_flat_map in Hin as (source & Hs & Ha).
  exists source. by rewrite !list_elem_of_In.
Qed.

(** C2.  In a round whose fan-out settles, when the de-duplicated
    aggregate is empty the article list is set to exactly the list that
    [getFallbackArticles] returns, which has twelve articles, and the
    error message stays unset; and the list set is never a mix: it is
    the fallback list, or it is the aggregate, all of whose articles
    come from the sources. *)
Theorem fetchNews_empty_aggregate
    (h : Host) (r : Run) (results : list (Settled (list Article.t))) :
  Promise_allSettled h (map (pipeline h) RSS_SOURCES) = Normal results →
  let unique := unique_articles (all_articles results) in
  let fallback := fallback_list (clock h Refreshing) (reads r) in
  ∃ r',
    fetchNews h r = (Normal tt, r')
    ∧ (unique = [] →
       articles (view r') = fallback
       ∧ 10 ≤ length (articles (view r'))
       ∧ error (view r') = None)
    ∧ ((unique = [] ∧ articles (view r') = fallback)
       ∨ (unique ≠ []
          ∧ articles (view r') = unique
          ∧ Forall (λ a, ∃ source, source ∈ RSS_SOURCES ∧ a ∈ articles_from h source)
                   (articles (view r')))).
Proof.
  intros Hsettled unique fallback.
  destruct (fetchNews_run h r) as (r' & Hrun & Hview).
  rewrite Hsettled in Hview. fold unique in Hview.
  exists r'. split; [done|].
  apply Promise_allSettled_results in Hsettled as [_ ->].
  destruct unique as [|a unique'] eqn:Hu; rewrite Hview;
    cbn [articles error loading lastUpdated].
  - split; [|by left]. intros _. split_and!; [done| |done].
    subst fallback. rewrite fallback_list_length. lia.
  - split; [done|]. right. split_and!; [done..|].
    apply Forall_forall. intros b Hb. apply unique_articles_live.
    fold unique. by rewrite Hu.
Qed.

(** C9.  Every run of [fetchNews] returns with [loading] set to false;
    and when the fan-out throws, the run sets the error message, sets
    the article list to the fallback list and sets [lastUpdated] to a
    new reading of the clock. *)
Theorem fetchNews_exception_path (h : Host) (r : Run) :
  let clk := clock h Refreshing in
  ∃ r',
    fetchNews h r = (Normal tt, r')
    ∧ loading (view r') = false
    ∧ is_Some (lastUpdated (view r'))
    ∧ (∀ e, Promise_allSettled h (map (pipeline h) RSS_SOURCES) = Throw e →
            error (view r') = Some error_message
            ∧ articles (view r') = fallback_list clk (reads r)
            ∧ lastUpdated (view r') = Some (Some (clk (12 + reads r)))).
Proof.
  intros clk.
  destruct (fetchNews_run h r) as (r' & Hrun & Hview).
  exists r'. split; [done|]. fold clk in Hview.
  destruct (Promise_allSettled h (map (pipeline h) RSS_SOURCES)) as [results|e0].
  - destruct (unique_articles (all_articles results)); rewrite Hview; simpl;
      split_and!; try done; by eexists.
  - rewrite Hview; simpl. split_and!; try done; by eexists.
Qed.

(** C4, as amended.  In a round whose fan-out settles with a live
    result, the article list is the de-duplicated aggregate: no two of
    its entries have the same key (the lower-cased title cut to 50
    characters); it keeps the order of the sorted sequence; and for
    every key the article kept is the first one with that key in the
    sorted sequence.  That article is at least as recent as any other
    article with that key when all dates of the round are valid, and
    not in general. *)
Theorem fetchNews_deduplicated
    (h : Host) (r : Run) (results : list (Settled (list Article.t))) :
  Promise_allSettled h (map (pipeline h) RSS_SOURCES) = Normal results →
  let sorted := all_articles results in
  unique_articles sorted ≠ [] →
  ∃ r',
    fetchNews h r = (Normal tt, r')
    ∧ articles (view r') = unique_articles sorted
    ∧ NoDup (dedup_key <$> articles (view r'))
    ∧ articles (view r') `sublist_of` sorted
    ∧ (∀ k, List.find (has_key k) (articles (view r')) = List.find (has_key k) sorted)
    ∧ (∀ a, a ∈ sorted →
            ∃ b, b ∈ articles (view r') ∧ dedup_key b = dedup_key a
                 ∧ List.find (has_key (dedup_key a)) sorted = Some b)
    ∧ (Forall has_valid_date sorted →
       ∀ a b, a ∈ articles (view r') → b ∈ sorted →
              dedup_key b = dedup_key a → at_least_as_recent a b).
Proof.
  intros Hsettled sorted Hne.
  destruct (fetchNews_run h r) as (r' & Hrun & Hview).
  rewrite Hsettled in Hview. fold sorted in Hview.
  assert (articles (view r') = unique_articles sorted) as Harts.
  { rewrite Hview. by destruct (unique_articles sorted). }
  assert (∀ k, List.find (has_key k) (unique_articles sorted)
               = List.find (has_key k) sorted) as Hfirst.
  { intros k. apply filter_with_unseen_first. set_solver. }
  exists r'. rewrite Harts. split_and!; [done|done| | |done| |].
  - apply filter_with_unseen_NoDup.
  - apply filter_with_unseen_sublist.
  - intros a Ha.
    destruct (find_has_key_elem (dedup_key a) sorted a Ha eq_refl) as [b Hb].
    exists b. split_and!; [|by eapply find_has_key_Some|done].
    rewrite <- Hfirst in Hb. by eapply find_has_key_Some.
  - intros Hvalid a b Ha Hb Hkey.
    assert (List.find (has_key (dedup_key a)) sorted = Some a) as Hfa.
    { rewrite <- Hfirst.
      destruct (find_has_key_elem (dedup_key a) _ a Ha eq_refl) as [a' Ha'].
      rewrite Ha'. f_equal.
      apply find_has_key_Some in Ha' as [Hin' Hk'].
      pose proof (filter_with_unseen_NoDup sorted ∅) as Hnd.
      fold (unique_articles sorted) in Hnd.
      apply list_elem_of_lookup in Ha as [i Hi].
      apply list_elem_of_lookup in Hin' as [j Hj].
      assert (i = j) as ->.
      { eapply NoDup_lookup; [exact Hnd|..];
          rewrite list_lookup_fmap; [by rewrite Hi|by rewrite Hj; simpl; rewrite Hk']. }
      congruence. }
    assert (StronglySorted at_least_as_recent sorted) as Hsorted.
    { subst sorted.
      apply Promise_allSettled_results in Hsettled as [_ ->].
      rewrite all_articles_contributions.
      apply sort_newest_first.
      rewrite all_articles_contributions in Hvalid.
      by rewrite sort_perm in Hvalid. }
    eapply (find_first_sorted at_least_as_recent (has_key (dedup_key a)) sorted);
      [exact Hsorted| |exact Hfa|exact Hb|].
    + eapply Forall_impl; [exact Hvalid|]. apply at_least_as_recent_refl.
    + unfold has_key. rewrite Hkey. apply String.eqb_refl.
Qed.

(** C5, as amended.  In a round whose fan-out settles with a live
    result, when every article that the sources have contributed has a
    valid date, the article list is sorted by date, most recent first:
    each entry is at least as recent as every entry after it. *)
Theorem fetchNews_sorted
    (h : Host) (r : Run) (results : list (Settled (list Article.t))) :
  Promise_allSettled h (map (pipeline h) RSS_SOURCES) = Normal results →
  unique_articles (all_articles results) ≠ [] →
  Forall (λ source, Forall has_valid_date (articles_from h source)) RSS_SOURCES →
  ∃ r',
    fetchNews h r = (Normal tt, r')
    ∧ articles (view r') = unique_articles (all_articles results)
    ∧ StronglySorted at_least_as_recent (articles (view r')).
Proof.
  intros Hsettled Hne Hvalid.
  destruct (fetchNews_run h r) as (r' & Hrun & Hview).
  rewrite Hsettled in Hview.
  assert (articles (view r') = unique_articles (all_articles results)) as Harts.
  { rewrite Hview. by destruct (unique_articles (all_articles results)). }
  exists r'. rewrite Harts. split_and!; [done..|].
  eapply sublist_StronglySorted; [|apply filter_with_unseen_sublist].
  apply Promise_allSettled_results in Hsettled as [_ ->].
  rewrite all_articles_contributions. apply sort_newest_first.
  apply Forall_forall. intros a Ha.
  apply list_elem_of_In, in_flat_map in Ha as (source & Hs & Ha).
  rewrite Forall_forall in Hvalid.
  apply list_elem_of_In in Hs. specialize (Hvalid source Hs).
  rewrite Forall_forall in Hvalid. apply Hvalid. by apply list_elem_of_In.
Qed.

Lemma flat_map_delete_nil {A B} (f : A → list B) l : ∀ i x,
  l !! i = Some x → f x = [] → flat_map f l = flat_map f (delete i l).
Proof.
  induction l as [|y l IH]; intros [|i] x Hi Hx; simplify_eq/=.
  - by rewrite Hx.
  - f_equal. by eapply IH.
Qed.

Lemma elem_of_delete_lookup {A} (l : list A) i x :
  x ∈ delete i l → ∃ j, j ≠ i ∧ l !! j = Some x.
Proof.
  intros [j Hj]%list_elem_of_lookup. rewrite list_lookup_delete in Hj.
  case_decide; [exists j|exists (S j)]; split; [lia|done|lia|done].
Qed.

(** C3, as amended.  In a round whose fan-out settles, when one source
    fails (no relay gives a body, the body is empty, or the parser
    finds no article) and every other source contributes at least one
    article: the failed source contributes the empty list; the article
    list is the sorted, de-duplicated aggregate of the contributions of
    the other sources, as if the failed one were not configured; it is
    not empty; the error message is unset and every article of the list
    comes from one of the other sources, none from the fallback; and
    every article of the other sources is represented in the list by
    the first article of the sorted sequence with its key, which is the
    article itself unless its key comes earlier. *)
Theorem fetchNews_isolates_failure
    (h : Host) (r : Run) (i : nat) (failed : FeedSource.t) :
  has_allSettled h = true →
  RSS_SOURCES !! i = Some failed →
  source_fails h failed →
  (∀ j source, RSS_SOURCES !! j = Some source → j ≠ i →
               articles_from h source ≠ []) →
  let others := delete i RSS_SOURCES in
  let sorted := sort newest_first (flat_map (articles_from h) others) in
  ∃ r',
    fetchNews h r = (Normal tt, r')
    ∧ articles_from h failed = []
    ∧ articles (view r') = unique_articles sorted
    ∧ articles (view r') ≠ []
    ∧ error (view r') = None
    ∧ Forall (λ a, ∃ source, source ∈ others ∧ a ∈ articles_from h source)
             (articles (view r'))
    ∧ (∀ source a, source ∈ others → a ∈ articles_from h source →
         ∃ b, b ∈ articles (view r')
              ∧ dedup_key b = dedup_key a
              ∧ List.find (has_key (dedup_key a)) sorted = Some b).
Proof.
  intros Hall Hi Hfail Hothers others sorted.
  pose proof (source_fails_articles_from h failed Hfail) as Hnil.
  destruct (fetchNews_run h r) as (r' & Hrun & Hview).
  unfold Promise_allSettled in Hview. rewrite Hall in Hview.
  rewrite all_articles_contributions in Hview.
  rewrite (flat_map_delete_nil (articles_from h) RSS_SOURCES i failed Hi Hnil)
    in Hview.
  fold others sorted in Hview.
  assert (∀ k, List.find (has_key k) (unique_articles sorted)
               = List.find (has_key k) sorted) as Hfirst.
  { intros k. apply filter_with_unseen_first. set_solver. }
  assert (∀ source a, source ∈ others → a ∈ articles_from h source →
            ∃ b, b ∈ unique_articles sorted
                 ∧ dedup_key b = dedup_key a
                 ∧ List.find (has_key (dedup_key a)) sorted = Some b) as Hrep.
  { intros source a Hs Ha.
    assert (a ∈ sorted) as Hin.
    { subst sorted. rewrite elem_of_sort.
      apply list_elem_of_In, in_flat_map. exists source.
      by rewrite <- !list_elem_of_In. }
    destruct (find_has_key_elem (dedup_key a) sorted a Hin eq_refl) as [b Hb].
    exists b. split_and!; [|by eapply find_has_key_Some|done].
    rewrite <- Hfirst in Hb. by eapply find_has_key_Some. }
  assert (unique_articles sorted ≠ []) as Hne.
  { set (j := if decide (i = 0) then 1 else 0).
    assert (j ≠ i) as Hji by (subst j; case_decide; lia).
    assert (∃ source, RSS_SOURCES !! j = Some source) as [source Hj].
    { subst j. case_decide; by eexists. }
    pose proof (Hothers j source Hj Hji) as Hsome.
    destruct (articles_from h source) as [|a l] eqn:Hl; [done|].
    assert (source ∈ others) as Hs.
    { subst others. apply list_elem_of_lookup.
      destruct (decide (j < i)).
      - exists j. by rewrite list_lookup_delete_lt.
      - exists (j - 1). rewrite list_lookup_delete_ge by lia.
        by replace (S (j - 1)) with j by lia. }
    destruct (Hrep source a Hs) as (b & Hb & _).
    { rewrite Hl. by left. }
    intros Hnil'. rewrite Hnil' in Hb. by apply elem_of_nil in Hb. }
  assert (view r' = {| articles := unique_articles sorted; loading := false;
                       error := None;
                       lastUpdated := Some (Some (clock h Refreshing (reads r))) |})
    as Hview'.
  { rewrite Hview. by destruct (unique_articles sorted). }
  exists r'. rewrite Hview'. cbn [articles error].
  split_and!; [done..| |done].
  apply Forall_forall. intros a Ha%unique_articles_elem.
  subst sorted. rewrite elem_of_sort in Ha.
  apply list_elem_of_In, in_flat_map in Ha as (source & Hs & Ha).
  exists source. by rewrite !list_elem_of_In.
Qed.

(** ** The claims on concrete rounds *)

(** C2 on a round where no relay answers: the fan-out settles, the
    aggregate is empty, and the fallback list is shown without an
    error message. *)
Lemma fetchNews_empty_aggregate_offline :
  Promise_allSettled Sample.offline_host (map (pipeline Sample.offline_host) RSS_SOURCES)
  = Normal (replicate 5 (Fulfilled []))
  ∧ ∃ r',
      fetchNews Sample.offline_host (start_of initial_view) = (Normal tt, r')
      ∧ articles (view r')
        = fallback_list (clock Sample.offline_host Refreshing) 0
      ∧ length (articles (view r')) = 12
      ∧ error (view r') = None.
Proof.
  assert (Promise_allSettled Sample.offline_host
            (map (pipeline Sample.offline_host) RSS_SOURCES)
          = Normal (replicate 5 (Fulfilled []))) as Hsettled
    by (vm_compute; reflexivity).
  split; [exact Hsettled|].
  destruct (fetchNews_empty_aggregate Sample.offline_host (start_of initial_view)
              _ Hsettled) as (r' & Hrun & Hempty & _).
  exists r'. split; [exact Hrun|].
  destruct Hempty as (Harts & _ & Herr); [vm_compute; reflexivity|].
  split_and!; [exact Harts| |exact Herr].
  rewrite Harts. reflexivity.
Defined.

(** C9 on an engine without [Promise.allSettled]: the fan-out throws,
    and the run ends with the error message, the fallback list, a
    date of last update, and [loading] false. *)
Lemma fetchNews_exception_path_legacy :
  Promise_allSettled Sample.legacy_host (map (pipeline Sample.legacy_host) RSS_SOURCES)
  = Throw (TypeError "Promise.allSettled is not a function")
  ∧ ∃ r',
      fetchNews Sample.legacy_host (start_of initial_view) = (Normal tt, r')
      ∧ loading (view r') = false
      ∧ error (view r') = Some error_message
      ∧ articles (view r') = fallback_list (clock Sample.legacy_host Refreshing) 0
      ∧ lastUpdated (view r') = Some (Some 1700000000012%Z).
Proof.
  assert (Promise_allSettled Sample.legacy_host
            (map (pipeline Sample.legacy_host) RSS_SOURCES)
          = Throw (TypeError "Promise.allSettled is not a function")) as Hthrows
    by reflexivity.
  split; [exact Hthrows|].
  destruct (fetchNews_exception_path Sample.legacy_host (start_of initial_view))
    as (r' & Hrun & Hloading & _ & Hcatch).
  destruct (Hcatch _ Hthrows) as (Herr & Harts & Hlast).
  exists r'. split_and!; [exact Hrun|exact Hloading|exact Herr|exact Harts|exact Hlast].
Defined.

(** C3, the counterexample.  The third source fails and the four
    others succeed with valid feeds; the article of the second source
    has the key of a more recent article of the first, and the article
    list holds no article of the second source. *)
Lemma fetchNews_drops_successful_article :
  ∃ r' dropped,
    fetchNews Sample.isolation_host (start_of initial_view) = (Normal tt, r')
    ∧ (length <$> (articles_from Sample.isolation_host <$> RSS_SOURCES))
      = [2; 1; 0; 1; 1]
    ∧ articles_from Sample.isolation_host (Sample.source 1) = [dropped]
    ∧ Article.title dropped = "ALPHA SHIPS"%string
    ∧ Article.source dropped = "The Verge AI"%string
    ∧ Article.title <$> articles (view r')
      = ["Gamma raises"; "Beta ships"; "Alpha ships"; "Delta opens"]%string
    ∧ Article.source <$> articles (view r')
      = ["Ars Technica AI"; "TechCrunch AI"; "TechCrunch AI"; "VentureBeat AI"]%string.
Proof. eexists _, _. vm_compute. split_and!; reflexivity. Qed.

(** C3 on that round. *)
Lemma fetchNews_isolates_failure_round :
  source_fails Sample.isolation_host (Sample.source 2)
  ∧ ∃ r',
      fetchNews Sample.isolation_host (start_of initial_view) = (Normal tt, r')
      ∧ articles_from Sample.isolation_host (Sample.source 2) = []
      ∧ articles (view r') ≠ []
      ∧ error (view r') = None.
Proof.
  assert (source_fails Sample.isolation_host (Sample.source 2)) as Hfails.
  { exists None. split; [vm_compute; reflexivity|by left]. }
  split; [exact Hfails|].
  destruct (fetchNews_isolates_failure Sample.isolation_host (start_of initial_view)
              2 (Sample.source 2) eq_refl eq_refl Hfails)
    as (r' & Hrun & Hnil & _ & Hne & Herr & _).
  { intros [|[|[|[|[|j]]]]] source Hj Hne; try done;
      injection Hj as <-; vm_compute; discriminate. }
  exists r'. split_and!; [exact Hrun|exact Hnil|exact Hne|exact Herr].
Defined.

(** C4 on that round: the two articles with the key [alpha ships] are
    one in the list, the more recent one. *)
Lemma fetchNews_deduplicated_round :
  ∃ r',
    fetchNews Sample.isolation_host (start_of initial_view) = (Normal tt, r')
    ∧ NoDup (dedup_key <$> articles (view r'))
    ∧ (Article.link <$> List.find (has_key "alpha ships") (articles (view r')))
      = Some "https://a.example/alpha"%string.
Proof.
  assert (Promise_allSettled Sample.isolation_host
            (map (pipeline Sample.isolation_host) RSS_SOURCES)
          = Normal (settle <$> map (pipeline Sample.isolation_host) RSS_SOURCES))
    as Hsettled by reflexivity.
  destruct (fetchNews_deduplicated Sample.isolation_host (start_of initial_view)
              _ Hsettled) as (r' & Hrun & _ & Hnodup & _ & Hfirst & _).
  { vm_compute. discriminate. }
  exists r'. split_and!; [exact Hrun|exact Hnodup|].
  rewrite Hfirst. vm_compute. reflexivity.
Defined.

(** C5 on that round, where every date is valid. *)
Lemma fetchNews_sorted_round :
  Forall (λ source, Forall has_valid_date (articles_from Sample.isolation_host source))
         RSS_SOURCES
  ∧ ∃ r',
      fetchNews Sample.isolation_host (start_of initial_view) = (Normal tt, r')
      ∧ StronglySorted at_least_as_recent (articles (view r')).
Proof.
  assert (Forall (λ source, Forall has_valid_date
                              (articles_from Sample.isolation_host source))
                 RSS_SOURCES) as Hvalid.
  { repeat (apply Forall_cons; split; [vm_compute; repeat constructor|]).
    apply Forall_nil_2. }
  split; [exact Hvalid|].
  assert (Promise_allSettled Sample.isolation_host
            (map (pipeline Sample.isolation_host) RSS_SOURCES)
          = Normal (settle <$> map (pipeline Sample.isolation_host) RSS_SOURCES))
    as Hsettled by reflexivity.
  destruct (fetchNews_sorted Sample.isolation_host (start_of initial_view)
              _ Hsettled) as (r' & Hrun & _ & Hsorted).
  { vm_compute. discriminate. }
  { exact Hvalid. }
  exists r'. split; [exact Hrun|exact Hsorted].
Defined.

(** C5, the counterexample.  A source gives three articles, the second
    with a date that is no date; the article list keeps them in this
    order, the oldest first and the most recent last. *)
Lemma fetchNews_unsorted_with_invalid_date :
  ∃ r' a b c ta tc,
    fetchNews Sample.unsortable_host (start_of initial_view) = (Normal tt, r')
    ∧ articles (view r') = [a; b; c]
    ∧ Article.pubDate a = Some ta
    ∧ Article.pubDate b = None
    ∧ Article.pubDate c = Some tc
    ∧ (ta <? tc)%Z = true.
Proof. eexists _, _, _, _, _, _. vm_compute. split_and!; reflexivity. Qed.

(** C4, the counterexample.  A source gives three articles: the first
    and the third have the same key, the third the later date, and the
    second a date that is no date.  The sort leaves them in this order,
    so the article list keeps the first, the older of the two, and
    drops the third. *)
Lemma fetchNews_keeps_older_duplicate :
  ∃ r' kept undated dropped t_kept t_dropped,
    articles_from Sample.overtaken_host (Sample.source 0) = [kept; undated; dropped]
    ∧ fetchNews Sample.overtaken_host (start_of initial_view) = (Normal tt, r')
    ∧ error (view r') = None
    ∧ articles (view r') = [kept; undated]
    ∧ dedup_key dropped = dedup_key kept
    ∧ Article.pubDate kept = Some t_kept
    ∧ Article.pubDate undated = None
    ∧ Article.pubDate dropped = Some t_dropped
    ∧ (t_kept <? t_dropped)%Z = true.
Proof. eexists _, _, _, _, _, _. vm_compute. split_and!; reflexivity. Qed.

(** A list of two or more articles with an invalid date among them is
    not in non-increasing order of date, in whatever order a sort has
    left it. *)
Lemma invalid_date_unsorted l a :
  a ∈ l → Article.pubDate a = None → 2 ≤ length l →
  StronglySorted at_least_as_recent l → False.
Proof.
  intros Ha Hdate Hlen Hs.
  assert (∀ x y, at_least_as_recent x y →
                 Article.pubDate x ≠ None ∧ Article.pubDate y ≠ None) as Hval.
  { intros x y. unfold at_least_as_recent.
    destruct (Article.pubDate x), (Article.pubDate y); done. }
  destruct l as [|x [|y l]]; simpl in Hlen; try lia.
  apply StronglySorted_inv in Hs as [Hs Hx].
  apply Forall_cons in Hx as [Hxy Hx].
  apply elem_of_cons in Ha as [->|Ha].
  - by destruct (Hval _ _ Hxy).
  - apply elem_of_cons in Ha as [->|Ha].
    + by destruct (Hval _ _ Hxy).
    + rewrite Forall_forall in Hx. by destruct (Hval _ _ (Hx a Ha)).
Qed.

(** C10 on a document with an item that has no link and two entries:
    the entries are queried for, and the articles are theirs. *)
Lemma parseRSSItems_falls_back_to_entries :
  parseRSSItems Sample.parser_host (clock Sample.parser_host Refreshing)
    (Sample.xml_text Sample.mixed_feed) (Sample.source 0) parse_start
  = (Normal [Article.make "First" "https://b.example/1" (Some 1706774400000%Z) ""
               "TechCrunch AI" "Industry" "#10b981";
             Article.make "Second" "https://b.example/2" (Some 1706860800000%Z) ""
               "TechCrunch AI" "Industry" "#10b981"],
     {| clock_reads := 0; document_queries := [ByTag "item"; ByTag "entry"] |}).
Proof. vm_compute. reflexivity. Qed.

(** C8 on the second source of that round: the first relay answers 500,
    the second gives the feed; both are requested, in order. *)
Lemma fetchWithProxy_second_relay :
  fetchWithProxy Sample.isolation_host (FeedSource.url (Sample.source 1)) []
  = (Normal (Some (Sample.xml_text Sample.feed_b)), [Sample.via1 1; Sample.via2 1]).
Proof. vm_compute. reflexivity. Qed.

(** C8 on the first source: the first relay gives the feed and the
    second is not requested. *)
Lemma fetchWithProxy_first_relay :
  fetchWithProxy Sample.isolation_host (FeedSource.url (Sample.source 0)) []
  = (Normal (Some (Sample.xml_text Sample.feed_a)), [Sample.via1 0]).
Proof. vm_compute. reflexivity. Qed.

(** An article with an invalid date can leave the list out of order and
    be gone from it: here it is dropped as a duplicate, and the two
    articles that stay, both with valid dates, are oldest first.  This
    is why the amended C5 asks for valid dates of all the articles
    contributed, not only of those of the list. *)
Lemma fetchNews_unsorted_after_dedup :
  ∃ r' a c ta tc,
    fetchNews Sample.shadowed_host (start_of initial_view) = (Normal tt, r')
    ∧ (length <$> (articles_from Sample.shadowed_host <$> RSS_SOURCES))
      = [3; 0; 0; 0; 0]
    ∧ articles (view r') = [a; c]
    ∧ Article.pubDate a = Some ta
    ∧ Article.pubDate c = Some tc
    ∧ (ta <? tc)%Z = true.
Proof. eexists _, _, _, _, _. vm_compute. split_and!; reflexivity. Qed.

(** ** Further properties of the data model *)

Lemma substring_0_length n : ∀ s, String.length (String.substring 0 n s) ≤ n.
Proof.
  induction n as [|n IH]; intros [|c s]; simpl; try lia.
  specialize (IH s). lia.
Qed.

Lemma slice_0_length n s : String.length (slice 0 n s) ≤ n.
Proof. unfold slice. rewrite Nat.sub_0_r. apply substring_0_length. Qed.

(** The description of every article the parser returns has at most
    200 characters, and its source, category and colour are those of
    the feed source. *)
Theorem parseRSSItems_article_shape
    (h : Host) (clk : Clock) (xmlText : string) (source : FeedSource.t)
    (s : ParseState) :
  ∃ out s',
    parseRSSItems h clk xmlText source s = (Normal out, s')
    ∧ Forall (λ a, String.length (Article.description a) ≤ 200
                   ∧ Article.source a = FeedSource.name source
                   ∧ Article.category a = FeedSource.category source
                   ∧ Article.color a = FeedSource.color source) out.
Proof.
  destruct (parseRSSItems_run h clk source xmlText s)
    as (out & s' & Hrun & _ & _ & Hall).
  exists out, s'. split; [done|].
  eapply Forall2_Forall_l; [exact Hall|].
  apply Forall_forall. intros el _ a (date & -> & _). simpl.
  split_and!; [apply slice_0_length|done..].
Qed.

(** The fallback list spans the four categories. *)
Theorem fallback_list_categories (clk : Clock) (t : nat) :
  Forall (λ c, c ∈ Article.category <$> fallback_list clk t)
         ["Industry"; "Tools"; "Data Centers"; "Research"]%string
  ∧ Forall (λ a, Article.title a ≠ ""%string ∧ Article.link a ≠ ""%string)
           (fallback_list clk t).
Proof.
  split.
  - repeat (apply Forall_cons; split;
              [apply list_elem_of_In; cbn; tauto|]).
    apply Forall_nil_2.
  - repeat (apply Forall_cons; split; [split; discriminate|]).
    apply Forall_nil_2.
Qed.

Lemma articles_from_length h source : length (articles_from h source) ≤ 8.
Proof.
  unfold articles_from, pipeline, run.
  destruct (fetchWithProxy h (FeedSource.url source) []) as [[xmlText|e] made];
    simpl; [|lia].
  destruct (negb (truthy xmlText)); simpl; [lia|].
  destruct (parseRSSItems_run h (clock h (Parsing source)) source
              (value xmlText) parse_start) as (out & s' & Hrun & _ & _ & Hall).
  rewrite Hrun. simpl. rewrite (Forall2_length _ _ _ Hall), length_take. lia.
Qed.

Lemma flat_map_length_bound {A B} (f : A → list B) n l :
  (∀ x, length (f x) ≤ n) → length (flat_map f l) ≤ n * length l.
Proof.
  intros Hf. induction l as [|x l IH]; simpl; [lia|].
  rewrite length_app. specialize (Hf x). lia.
Qed.

(** A run of [fetchNews] never throws, and the list it sets has at most
    forty articles: eight for each of the five sources, or the twelve
    of the fallback list. *)
Theorem fetchNews_list_bound (h : Host) (r : Run) :
  ∃ r',
    fetchNews h r = (Normal tt, r')
    ∧ 0 < length (articles (view r')) ≤ 40.
Proof.
  destruct (fetchNews_run h r) as (r' & Hrun & Hview).
  exists r'. split; [done|].
  destruct (Promise_allSettled h (map (pipeline h) RSS_SOURCES))
    as [results|e] eqn:Hsettled.
  - apply Promise_allSettled_results in Hsettled as [_ ->].
    destruct (unique_articles _) as [|a unique] eqn:Hu.
    + rewrite Hview. simpl. lia.
    + rewrite Hview. cbn [articles]. rewrite <- Hu. split.
      * rewrite Hu. simpl. lia.
      * etransitivity;
          [apply sublist_length, filter_with_unseen_sublist|].
        rewrite all_articles_contributions.
        rewrite (Permutation_length (sort_perm _ _)).
        etransitivity;
          [apply (flat_map_length_bound _ 8), articles_from_length|].
        simpl. lia.
  - rewrite Hview. simpl. lia.
Qed.

(** With a clock that does not advance by more than an hour from one
    reading to the next, the fallback list is sorted most recent first. *)
Theorem fallback_list_sorted (clk : Clock) (t : nat) :
  (∀ k, (clk (S k) - clk k ≤ 3600000)%Z) →
  StronglySorted at_least_as_recent (fallback_list clk t).
Proof.
  intros Hstep.
  pose proof (Hstep t). pose proof (Hstep (1 + t)). pose proof (Hstep (2 + t)).
  pose proof (Hstep (3 + t)). pose proof (Hstep (4 + t)). pose proof (Hstep (5 + t)).
  pose proof (Hstep (6 + t)). pose proof (Hstep (7 + t)). pose proof (Hstep (8 + t)).
  pose proof (Hstep (9 + t)). pose proof (Hstep (10 + t)).
  simpl in *.
  repeat (apply SSorted_cons;
            [|repeat (apply Forall_cons; split;
                        [unfold at_least_as_recent, new_Date_at; simpl; lia|]);
              apply Forall_nil_2]).
  apply SSorted_nil.
Qed.

(** The fallback list on a clock that advances by a millisecond a
    reading. *)
Lemma fallback_list_sorted_steady :
  StronglySorted at_least_as_recent
    (fallback_list (Sample.steady_clock Refreshing) 0).
Proof.
  apply (fallback_list_sorted (Sample.steady_clock Refreshing) 0).
  intros k. unfold Sample.steady_clock. lia.
Defined.

(** * The page *)

(** ** The age of an article *)

Lemma div_ltb a c n : (0 < c)%Z → ((a / c <? n) = (a <? c * n))%Z.
Proof.
  intros Hc. destruct (a <? c * n)%Z eqn:Hlt.
  - apply Z.ltb_lt in Hlt. apply Z.ltb_lt. by apply Z.div_lt_upper_bound.
  - apply Z.ltb_ge in Hlt. apply Z.ltb_ge. by apply Z.div_le_lower_bound.
Qed.

(** What [formatTimeAgo] shows for an article with a valid date, by its
    age at the reading of the clock: [Just now] below a minute, also
    for a date in the future; then whole minutes from 1 to 59, whole
    hours from 1 to 23, whole days from 1 to 6, and the short date from
    a week on.  For an invalid date it shows what the host's date
    formatting makes of one. *)
Theorem formatTimeAgo_by_age
    (toLocaleDateString : Date → string) (clk : Clock) (t : nat) (posted : Z) :
  let age := (clk t - posted)%Z in
  (∃ shown,
     formatTimeAgo toLocaleDateString clk (Some posted) t = (Normal shown, S t)
     ∧ ((age < 60000)%Z ∧ shown = "Just now"%string
        ∨ (60000 ≤ age < 3600000)%Z
          ∧ (1 ≤ age / 60000 ≤ 59)%Z
          ∧ shown = (pretty (age / 60000)%Z +:+ "m ago")%string
        ∨ (3600000 ≤ age < 86400000)%Z
          ∧ (1 ≤ age / 3600000 ≤ 23)%Z
          ∧ shown = (pretty (age / 3600000)%Z +:+ "h ago")%string
        ∨ (86400000 ≤ age < 604800000)%Z
          ∧ (1 ≤ age / 86400000 ≤ 6)%Z
          ∧ shown = (pretty (age / 86400000)%Z +:+ "d ago")%string
        ∨ (604800000 ≤ age)%Z ∧ shown = toLocaleDateString (Some posted)))
  ∧ formatTimeAgo toLocaleDateString clk None t
    = (Normal (toLocaleDateString None), S t).
Proof.
  intros age. split; [|reflexivity].
  unfold formatTimeAgo, bind, new_Date, ret. cbn [date_sub Math_floor_div fmap option_fmap option_map number_lt number_to_string].
  fold age.
  rewrite !div_ltb by lia.
  assert (∀ c lo hi, (0 < c)%Z → (c * lo ≤ age)%Z → (age < c * hi)%Z →
                     (lo ≤ age / c ≤ hi - 1)%Z) as Hdiv.
  { intros c lo hi Hc Hlo Hhi.
    assert (lo ≤ age / c)%Z by (by apply Z.div_le_lower_bound).
    assert (age / c < hi)%Z by (by apply Z.div_lt_upper_bound). lia. }
  destruct (age <? 60000 * 1)%Z eqn:H1; [apply Z.ltb_lt in H1|apply Z.ltb_ge in H1].
  { eexists. split; [reflexivity|]. left. split; [lia|done]. }
  destruct (age <? 60000 * 60)%Z eqn:H2; [apply Z.ltb_lt in H2|apply Z.ltb_ge in H2].
  { eexists. split; [reflexivity|]. right. left.
    split; [lia|]. split; [|done]. apply (Hdiv 60000 1 60)%Z; lia. }
  destruct (age <? 3600000 * 24)%Z eqn:H3; [apply Z.ltb_lt in H3|apply Z.ltb_ge in H3].
  { eexists. split; [reflexivity|]. right. right. left.
    split; [lia|]. split; [|done]. apply (Hdiv 3600000 1 24)%Z; lia. }
  destruct (age <? 86400000 * 7)%Z eqn:H4; [apply Z.ltb_lt in H4|apply Z.ltb_ge in H4].
  { eexists. split; [reflexivity|]. right. right. right. left.
    split; [lia|]. split; [|done]. apply (Hdiv 86400000 1 7)%Z; lia. }
  eexists. split; [reflexivity|]. right. right. right. right. split; [lia|done].
Qed.

(** ** Strings: append, prefix, [includes], lower case *)

Lemma append_cons c s t : (String c s +:+ t)%string = String c (s +:+ t).
Proof. reflexivity. Qed.

Lemma append_assoc s t u : ((s +:+ t) +:+ u = s +:+ (t +:+ u))%string.
Proof.
  induction s as [|c s IH]; [done|].
  rewrite !append_cons. by f_equal.
Qed.

Lemma prefix_spec p : ∀ s, String.prefix p s = true ↔ ∃ r, s = (p +:+ r)%string.
Proof.
  induction p as [|c p IH]; intros s.
  - split; [|by destruct s]. intros _. by exists s.
  - destruct s as [|c' s]; simpl.
    + split; [done|]. by intros [r Hr].
    + destruct (ascii_dec c c') as [->|Hne].
      * rewrite IH. split; intros [r Hr]; exists r.
        -- rewrite append_cons. by f_equal.
        -- rewrite append_cons in Hr. by simplify_eq.
      * split; [done|]. intros [r Hr]. rewrite append_cons in Hr. by simplify_eq.
Qed.

Lemma includes_unfold s q :
  includes s q
  = String.prefix q s
    || match s with EmptyString => false | String _ s' => includes s' q end.
Proof. by destruct s. Qed.

(** [s.includes(q)] holds exactly when [q] occurs in [s]. *)
Lemma includes_spec q : ∀ s,
  includes s q = true ↔ ∃ p r, s = (p +:+ q +:+ r)%string.
Proof.
  intros s. split.
  - induction s as [|c s IH]; rewrite includes_unfold, orb_true_iff.
    + intros [Hp|?]; [|done]. apply prefix_spec in Hp as [r Hr].
      by exists ""%string, r.
    + intros [Hp|Hin].
      * apply prefix_spec in Hp as [r Hr]. by exists ""%string, r.
      * destruct (IH Hin) as (p & r & ->). exists (String c p), r.
        by rewrite append_cons.
  - intros (p & r & ->). induction p as [|c p IH].
    + rewrite includes_unfold, orb_true_iff. left.
      apply prefix_spec. by exists r.
    + rewrite includes_unfold, orb_true_iff. right. exact IH.
Qed.

Lemma includes_trans s q' q :
  includes s q' = true → includes q' q = true → includes s q = true.
Proof.
  rewrite !includes_spec. intros (p & r & ->) (p' & r' & ->).
  exists (p +:+ p')%string, (r' +:+ r)%string.
  by rewrite !append_assoc.
Qed.

(** Two facts of lower-casing that hold of any text: lower-casing
    twice is lower-casing once, and only the empty string has an empty
    lower-case form. *)
Lemma lower_code_unit_idem c : lower_code_unit (lower_code_unit c) = lower_code_unit c.
Proof. destruct c as [[] [] [] [] [] [] [] []]; reflexivity. Qed.

Lemma toLowerCase_idem s : toLowerCase (toLowerCase s) = toLowerCase s.
Proof.
  induction s as [|c s IH]; [done|].
  cbn [toLowerCase]. by rewrite lower_code_unit_idem, IH.
Qed.

Lemma toLowerCase_is_empty s : is_empty (toLowerCase s) = is_empty s.
Proof. by destruct s. Qed.

(** ** Lists: [filter] *)

Lemma filter_sublist {A} (f : A → bool) l : List.filter f l `sublist_of` l.
Proof.
  induction l as [|x l IH]; simpl; [done|].
  destruct (f x); [by apply sublist_skip|by apply sublist_cons].
Qed.

Lemma filter_sublist_impl {A} (f g : A → bool) l :
  (∀ x, f x = true → g x = true) →
  List.filter f l `sublist_of` List.filter g l.
Proof.
  intros Hfg. induction l as [|x l IH]; simpl; [done|].
  destruct (f x) eqn:Hf.
  - rewrite (Hfg x Hf). by apply sublist_skip.
  - destruct (g x); [by apply sublist_cons|done].
Qed.

Lemma filter_filter {A} (f g : A → bool) l :
  List.filter f (List.filter g l) = List.filter (λ x, g x && f x) l.
Proof.
  induction l as [|x l IH]; simpl; [done|].
  destruct (g x); simpl; [|done]. destruct (f x); by rewrite IH.
Qed.

(** ** The filters *)

Lemma matches_filters_spec c q a :
  matches_filters c q a = true ↔
  (c = "All"%string ∨ Article.category a = c)
  ∧ (q = ""%string
     ∨ includes (toLowerCase (Article.title a)) (toLowerCase q) = true
     ∨ includes (toLowerCase (Article.description a)) (toLowerCase q) = true).
Proof.
  unfold matches_filters. rewrite andb_true_iff, !orb_true_iff, !String.eqb_eq.
  assert (is_empty q = true ↔ q = ""%string) as -> by (by destruct q).
  tauto.
Qed.

(** The filtered list is cut out of the article list, in its order:
    nothing is added, repeated or moved.  Each article kept has the
    active category, unless that is [All], and has the search text in
    its title or its description, letter case apart, unless the text
    is empty.  A list without duplicate keys, or sorted most recent
    first, stays so. *)
Theorem filteredArticles_keeps_order
    (articles : list Article.t) (activeCategory searchQuery : string) :
  let filtered := filteredArticles articles activeCategory searchQuery in
  filtered `sublist_of` articles
  ∧ Forall (λ a,
      (activeCategory = "All"%string ∨ Article.category a = activeCategory)
      ∧ (searchQuery = ""%string
         ∨ (∃ p r, toLowerCase (Article.title a)
                   = (p +:+ toLowerCase searchQuery +:+ r)%string)
         ∨ (∃ p r, toLowerCase (Article.description a)
                   = (p +:+ toLowerCase searchQuery +:+ r)%string)))
      filtered
  ∧ (NoDup (dedup_key <$> articles) → NoDup (dedup_key <$> filtered))
  ∧ (StronglySorted at_least_as_recent articles →
     StronglySorted at_least_as_recent filtered).
Proof.
  intros filtered.
  assert (filtered `sublist_of` articles) as Hsub by apply filter_sublist.
  split_and!; [done| | |].
  - apply Forall_forall. intros a Ha.
    apply list_elem_of_In, filter_In in Ha as [_ Hm].
    apply matches_filters_spec in Hm. by rewrite !includes_spec in Hm.
  - intros Hnd. eapply sublist_NoDup; [exact Hnd|]. by apply fmap_sublist.
  - intros Hs. by eapply sublist_StronglySorted.
Qed.

(** The search ignores the letter case of the search text: the list
    depends on the text through its lower-case form only, so two texts
    with the same lower-case form give the same list, and a text gives
    the list of its lower-case form. *)
Theorem filteredArticles_ignores_case
    (articles : list Article.t) (activeCategory q q' : string) :
  toLowerCase q = toLowerCase q' →
  filteredArticles articles activeCategory q
  = filteredArticles articles activeCategory q'
  ∧ filteredArticles articles activeCategory (toLowerCase q)
    = filteredArticles articles activeCategory q.
Proof.
  intros Hlow.
  assert (∀ x y, toLowerCase x = toLowerCase y →
            filteredArticles articles activeCategory x
            = filteredArticles articles activeCategory y) as Hsame.
  { intros x y Hxy. unfold filteredArticles. apply filter_ext. intros a.
    unfold matches_filters. rewrite Hxy.
    by rewrite <- (toLowerCase_is_empty x), <- (toLowerCase_is_empty y), Hxy. }
  split.
  - by apply Hsame.
  - apply Hsame, toLowerCase_idem.
Qed.

(** The search texts [openai] and [OpenAI] on the fallback list. *)
Lemma filteredArticles_ignores_case_sample :
  filteredArticles (fallback_list (Sample.steady_clock Refreshing) 0) "All" "openai"
  = filteredArticles (fallback_list (Sample.steady_clock Refreshing) 0) "All" "OpenAI".
Proof.
  apply (filteredArticles_ignores_case _ "All" "openai" "OpenAI"). reflexivity.
Defined.

(** The two filters are independent and compose: filtering by category
    and then by text, or by text and then by category, is filtering by
    both; and with the category [All] and the empty text, which is what
    [Clear filters] sets, the list is the article list. *)
Theorem filteredArticles_compose
    (articles : list Article.t) (activeCategory searchQuery : string) :
  filteredArticles (filteredArticles articles activeCategory "") "All" searchQuery
  = filteredArticles articles activeCategory searchQuery
  ∧ filteredArticles (filteredArticles articles "All" searchQuery) activeCategory ""
    = filteredArticles articles activeCategory searchQuery
  ∧ filteredArticles articles "All" "" = articles.
Proof.
  unfold filteredArticles. rewrite !filter_filter. split_and!.
  - apply filter_ext. intros a. unfold matches_filters. simpl.
    by rewrite !andb_true_r.
  - apply filter_ext. intros a. unfold matches_filters. simpl.
    rewrite !andb_true_r. apply andb_comm.
  - induction articles as [|a l IH]; [done|]. simpl. by rewrite IH.
Qed.

(** A search text narrows the list of every text found in it, once
    both are in lower case: when the lower-case form of [q] occurs in
    the lower-case form of [q'], the list for [q'] is cut out of the
    list for [q]. *)
Theorem filteredArticles_narrows
    (articles : list Article.t) (activeCategory q q' : string) :
  includes (toLowerCase q') (toLowerCase q) = true →
  filteredArticles articles activeCategory q'
  `sublist_of` filteredArticles articles activeCategory q.
Proof.
  intros Hlow. apply filter_sublist_impl. intros a.
  rewrite !matches_filters_spec. intros [Hcat Hsearch]. split; [done|].
  destruct Hsearch as [->|[Ht|Hd]].
  - left. apply includes_spec in Hlow as (p & r & Hq).
    destruct p; [|done]. by destruct q.
  - right. left. by eapply includes_trans.
  - right. right. by eapply includes_trans.
Qed.

(** Typing on from [chip] to [chips] on the fallback list. *)
Lemma filteredArticles_narrows_sample :
  filteredArticles (fallback_list (Sample.steady_clock Refreshing) 0) "All" "chips"
  `sublist_of`
  filteredArticles (fallback_list (Sample.steady_clock Refreshing) 0) "All" "chip".
Proof.
  apply (filteredArticles_narrows _ "All" "chip" "chips"). reflexivity.
Defined.

(** ** Live articles and the categories *)

(** The articles a source contributes carry its name and category. *)
Lemma articles_from_fields h source a :
  a ∈ articles_from h source →
  Article.source a = FeedSource.name source
  ∧ Article.category a = FeedSource.category source.
Proof.
  unfold articles_from, pipeline, run.
  destruct (fetchWithProxy h (FeedSource.url source) []) as [[xmlText|e] made];
    simpl; [|by intros ?%elem_of_nil].
  destruct (negb (truthy xmlText)); simpl; [by intros ?%elem_of_nil|].
  destruct (parseRSSItems_run h (clock h (Parsing source)) source
              (value xmlText) parse_start) as (out & s' & Hrun & _ & _ & Hall).
  rewrite Hrun. simpl. intros Ha.
  apply list_elem_of_lookup in Ha as [i Hi].
  destruct (Forall2_lookup_l _ _ _ _ _ Hall Hi) as (el & _ & date & -> & _).
  done.
Qed.

Lemma RSS_SOURCES_fields source :
  source ∈ RSS_SOURCES →
  FeedSource.name source
    ∈ ["TechCrunch AI"; "The Verge AI"; "MIT Tech Review";
       "Ars Technica AI"; "VentureBeat AI"]%string
  ∧ FeedSource.category source ∈ ["Industry"; "Research"; "Tools"]%string.
Proof.
  unfold RSS_SOURCES. rewrite !elem_of_cons, elem_of_nil.
  intros [->|[->|[->|[->|[->|[]]]]]]; cbn; tauto.
Qed.

Lemma filteredArticles_other_category l :
  Forall (λ a, Article.category a ∈ ["Industry"; "Research"; "Tools"]%string) l →
  ∀ q, filteredArticles l "Data Centers" q = [].
Proof.
  intros Hcats q. unfold filteredArticles.
  induction Hcats as [|a l Ha _ IH]; [done|]. simpl. rewrite IH.
  destruct (matches_filters "Data Centers" q a) eqn:Hm; [|done].
  apply matches_filters_spec in Hm as [[Hall|Hcat] _]; [discriminate Hall|].
  rewrite Hcat, !elem_of_cons, elem_of_nil in Ha.
  destruct Ha as [Ha|[Ha|[Ha|[]]]]; discriminate Ha.
Qed.

(** No source is configured with the category [Data Centers]: in a
    round with a live result every article has one of the three
    categories of the sources, so the [Data Centers] filter leaves the
    grid with the empty state, whatever the search text. *)
Theorem live_list_categories
    (h : Host) (r : Run) (results : list (Settled (list Article.t))) :
  Promise_allSettled h (map (pipeline h) RSS_SOURCES) = Normal results →
  unique_articles (all_articles results) ≠ [] →
  ∃ r',
    fetchNews h r = (Normal tt, r')
    ∧ Forall (λ a, Article.category a ∈ ["Industry"; "Research"; "Tools"]%string)
             (articles (view r'))
    ∧ ∀ q, filteredArticles (articles (view r')) "Data Centers" q = []
           ∧ news_grid (view r') "Data Centers" q = EmptyState.
Proof.
  intros Hsettled Hne.
  destruct (fetchNews_run h r) as (r' & Hrun & Hview).
  rewrite Hsettled in Hview.
  assert (view r' = {| articles := unique_articles (all_articles results);
                       loading := false; error := None;
                       lastUpdated := Some (Some (clock h Refreshing (reads r))) |})
    as Hview'.
  { rewrite Hview. by destruct (unique_articles (all_articles results)). }
  assert (Forall (λ a, Article.category a ∈ ["Industry"; "Research"; "Tools"]%string)
                 (unique_articles (all_articles results))) as Hcats.
  { apply Promise_allSettled_results in Hsettled as [_ ->].
    apply Forall_forall. intros a Ha.
    apply unique_articles_live in Ha as (source & Hs & Ha).
    apply articles_from_fields in Ha as [_ ->].
    by apply RSS_SOURCES_fields. }
  pose proof (filteredArticles_other_category _ Hcats) as Hnone.
  exists r'. rewrite Hview'. cbn [articles].
  split_and!; [done..|]. intros q. split; [done|].
  unfold news_grid. cbn [loading articles]. by rewrite Hnone.
Qed.

(** On the round of the five feeds. *)
Lemma live_list_categories_round :
  ∃ r',
    fetchNews Sample.isolation_host (start_of initial_view) = (Normal tt, r')
    ∧ news_grid (view r') "Data Centers" "" = EmptyState.
Proof.
  assert (Promise_allSettled Sample.isolation_host
            (map (pipeline Sample.isolation_host) RSS_SOURCES)
          = Normal (settle <$> map (pipeline Sample.isolation_host) RSS_SOURCES))
    as Hsettled by reflexivity.
  destruct (live_list_categories Sample.isolation_host (start_of initial_view)
              _ Hsettled) as (r' & Hrun & _ & Hgrid).
  { vm_compute. discriminate. }
  exists r'. split; [exact Hrun|]. apply Hgrid.
Defined.

(** ** The statistics and the grid after a refresh *)

Lemma Set_size_le_length l : Set_size l ≤ length l.
Proof.
  unfold Set_size. induction l as [|x l IH]; [done|].
  rewrite list_to_set_cons, size_union_alt, size_singleton. simpl.
  assert (size (list_to_set l ∖ {[x]} : gset string) ≤ size (list_to_set l : gset string))
    by (apply subseteq_size, subseteq_difference_l; done).
  lia.
Qed.

Lemma Set_size_subseteq l k : (∀ x, x ∈ l → x ∈ k) → Set_size l ≤ length k.
Proof.
  intros Hsub. etransitivity; [|apply (Set_size_le_length k)].
  unfold Set_size. apply subseteq_size. intros x.
  rewrite !elem_of_list_to_set. apply Hsub.
Qed.

Lemma Set_size_pos l : l ≠ [] → 0 < Set_size l.
Proof.
  destruct l as [|x l]; [done|]. intros _. unfold Set_size.
  rewrite list_to_set_cons, size_union_alt, size_singleton. lia.
Qed.

Lemma filteredArticles_all l : filteredArticles l "All" "" = l.
Proof.
  unfold filteredArticles. induction l as [|a l IH]; [done|].
  simpl. by rewrite IH.
Qed.

(** After a run of [fetchNews] the list is not empty, has at most forty
    articles, and each article carries the name of a configured source
    and one of the four categories. *)
Lemma fetchNews_articles h r :
  ∃ r',
    fetchNews h r = (Normal tt, r')
    ∧ loading (view r') = false
    ∧ 0 < length (articles (view r')) ≤ 40
    ∧ Forall (λ a, Article.source a ∈ FeedSource.name <$> RSS_SOURCES
                   ∧ Article.category a ∈ drop 1 CATEGORIES)
             (articles (view r'))
    ∧ error (view r')
      = match Promise_allSettled h (map (pipeline h) RSS_SOURCES) with
        | Normal _ => None
        | Throw _ => Some error_message
        end.
Proof.
  destruct (fetchNews_run h r) as (r' & Hrun & Hview).
  exists r'. split; [done|].
  assert (Forall (λ a, Article.source a ∈ FeedSource.name <$> RSS_SOURCES
                       ∧ Article.category a ∈ drop 1 CATEGORIES)
                 (fallback_list (clock h Refreshing) (reads r))) as Hfallback.
  { repeat (apply Forall_cons; split;
              [split; apply list_elem_of_In; vm_compute; tauto|]).
    apply Forall_nil_2. }
  destruct (Promise_allSettled h (map (pipeline h) RSS_SOURCES))
    as [results|e] eqn:Hsettled.
  - apply Promise_allSettled_results in Hsettled as [_ ->].
    destruct (unique_articles _) as [|a unique] eqn:Hu.
    + rewrite Hview. cbn [articles loading error].
      split_and!; [done|simpl; lia|simpl; lia|done|done].
    + rewrite Hview. cbn [articles loading error]. rewrite <- Hu.
      split_and!; [done|rewrite Hu; simpl; lia| | |done].
      * etransitivity;
          [apply sublist_length, filter_with_unseen_sublist|].
        rewrite all_articles_contributions.
        rewrite (Permutation_length (sort_perm _ _)).
        etransitivity;
          [apply (flat_map_length_bound _ 8), articles_from_length|].
        simpl. lia.
      * apply Forall_forall. intros b Hb.
        apply unique_articles_live in Hb as (source & Hs & Hb).
        apply articles_from_fields in Hb as [-> ->].
        split.
        -- apply list_elem_of_fmap. by exists source.
        -- destruct (RSS_SOURCES_fields source Hs) as [_ Hc].
           rewrite !elem_of_cons, elem_of_nil in Hc.
           apply list_elem_of_In. destruct Hc as [->|[->|[->|[]]]]; cbn; tauto.
  - rewrite Hview. cbn [articles loading error].
    split_and!; [done|simpl; lia|simpl; lia|done|done].
Qed.

(** After every run of [fetchNews] the statistics bar shows between 1
    and 40 articles, between 1 and 5 sources and between 1 and 4
    categories, and never more sources or categories than articles. *)
Theorem stats_after_refresh (h : Host) (r : Run) :
  ∃ r',
    fetchNews h r = (Normal tt, r')
    ∧ 1 ≤ total (stats (articles (view r'))) ≤ 40
    ∧ 1 ≤ sources (stats (articles (view r'))) ≤ 5
    ∧ 1 ≤ categories (stats (articles (view r'))) ≤ 4
    ∧ sources (stats (articles (view r'))) ≤ total (stats (articles (view r')))
    ∧ categories (stats (articles (view r'))) ≤ total (stats (articles (view r'))).
Proof.
  destruct (fetchNews_articles h r) as (r' & Hrun & _ & Hlen & Hknown & _).
  exists r'. split; [done|]. cbn [stats total sources categories].
  set (l := articles (view r')) in *.
  assert (l ≠ []) as Hne by (intros Hl; rewrite Hl in Hlen; simpl in Hlen; lia).
  rewrite Forall_forall in Hknown.
  pose proof (Set_size_pos (Article.source <$> l)) as Hs1.
  pose proof (Set_size_pos (Article.category <$> l)) as Hc1.
  pose proof (Set_size_le_length (Article.source <$> l)) as Hs2.
  pose proof (Set_size_le_length (Article.category <$> l)) as Hc2.
  rewrite length_fmap in Hs2, Hc2.
  assert (Set_size (Article.source <$> l) ≤ 5) as Hs3.
  { etransitivity;
      [apply (Set_size_subseteq _ (FeedSource.name <$> RSS_SOURCES))|apply le_n].
    intros x (a & -> & Ha)%list_elem_of_fmap. by apply Hknown. }
  assert (Set_size (Article.category <$> l) ≤ 4) as Hc3.
  { etransitivity;
      [apply (Set_size_subseteq _ (drop 1 CATEGORIES))|apply le_n].
    intros x (a & -> & Ha)%list_elem_of_fmap. by apply Hknown. }
  assert (Article.source <$> l ≠ []) as Hs0 by (by destruct l).
  assert (Article.category <$> l ≠ []) as Hc0 by (by destruct l).
  specialize (Hs1 Hs0). specialize (Hc1 Hc0). lia.
Qed.

(** After every run of [fetchNews], with the filters cleared, the grid
    shows cards, one for each article of the list and in its order,
    between 1 and 40 of them: neither the skeleton nor the empty state.
    The notice shows the error message exactly when the fan-out threw. *)
Theorem news_grid_after_refresh (h : Host) (r : Run) :
  ∃ r',
    fetchNews h r = (Normal tt, r')
    ∧ news_grid (view r') "All" "" = NewsCards (articles (view r'))
    ∧ 1 ≤ length (articles (view r')) ≤ 40
    ∧ error_notice (view r')
      = match Promise_allSettled h (map (pipeline h) RSS_SOURCES) with
        | Normal _ => None
        | Throw _ => Some error_message
        end.
Proof.
  destruct (fetchNews_articles h r) as (r' & Hrun & Hload & Hlen & _ & Herr).
  exists r'. split; [done|]. split; [|split; [lia|]].
  - unfold news_grid. rewrite Hload, filteredArticles_all.
    destruct (articles (view r')); [simpl in Hlen; lia|done].
  - unfold error_notice. rewrite Herr.
    by destruct (Promise_allSettled h (map (pipeline h) RSS_SOURCES)).
Qed.

(** * More on the hook *)

(** ** Feeds without articles *)

(** The parser returns the empty list exactly when no item and no
    entry of the document qualifies; so it does on a document with
    neither items nor entries, which is what text that is not a feed,
    or not XML at all, parses to.  It never throws. *)
Theorem parseRSSItems_empty
    (h : Host) (clk : Clock) (xmlText : string) (source : FeedSource.t)
    (s : ParseState) :
  let xml := parseFromString h xmlText in
  ∃ out s',
    parseRSSItems h clk xmlText source s = (Normal out, s')
    ∧ (out = [] ↔ qualifying RSS xml = [] ∧ qualifying Atom xml = [])
    ∧ (elements_of RSS xml = [] → elements_of Atom xml = [] → out = []).
Proof.
  intros xml.
  destruct (parseRSSItems_run h clk source xmlText s)
    as (out & s' & Hrun & _ & _ & Hall).
  fold xml in Hall. exists out, s'. split; [done|].
  assert (out = [] ↔ qualifying RSS xml = [] ∧ qualifying Atom xml = []) as Hiff.
  { pose proof (Forall2_length _ _ _ Hall) as Hlen.
    rewrite length_take in Hlen.
    destruct (dialect_used xml) eqn:Hd.
    - apply dialect_used_RSS in Hd. split.
      + intros ->. simpl in Hlen. destruct (qualifying RSS xml); [done|simpl in Hlen; lia].
      + by intros [? _].
    - apply dialect_used_Atom in Hd. split.
      + intros ->. split; [done|]. simpl in Hlen.
        destruct (qualifying Atom xml); [done|simpl in Hlen; lia].
      + intros [_ Hq]. rewrite Hq in Hlen. by destruct out. }
  split; [done|]. intros Hi He. apply Hiff.
  unfold qualifying. by rewrite Hi, He.
Qed.

(** ** Trimmed titles *)

Lemma trim_head s :
  match trimStart s with
  | EmptyString => True
  | String c _ => is_white_space c = false
  end.
Proof.
  induction s as [|c s IH]; simpl; [done|].
  by destruct (is_white_space c) eqn:Hc.
Qed.

Lemma trimStart_fixed s :
  match s with EmptyString => True | String c _ => is_white_space c = false end →
  trimStart s = s.
Proof. destruct s as [|c s]; simpl; [done|]. by intros ->. Qed.

Lemma trimEnd_head s :
  match s with EmptyString => True | String c _ => is_white_space c = false end →
  match trimEnd s with
  | EmptyString => True
  | String c _ => is_white_space c = false
  end.
Proof.
  destruct s as [|c s]; simpl; [done|]. intros Hc.
  destruct (trimEnd s); [by rewrite Hc|done].
Qed.

Lemma trimEnd_idem s : trimEnd (trimEnd s) = trimEnd s.
Proof.
  induction s as [|c s IH]; simpl; [done|].
  destruct (trimEnd s) as [|c' t] eqn:Ht.
  - destruct (is_white_space c) eqn:Hc; simpl; [done|]. by rewrite Hc.
  - simpl in *. by rewrite IH.
Qed.

Lemma trim_idem s : trim (trim s) = trim s.
Proof.
  unfold trim.
  rewrite (trimStart_fixed (trimEnd (trimStart s))).
  - apply trimEnd_idem.
  - apply trimEnd_head, trim_head.
Qed.

Lemma trimmed_text_trimmed sel el :
  trim (value (trimmed_text sel el)) = value (trimmed_text sel el).
Proof.
  unfold trimmed_text. destruct (querySelector sel el); simpl; [|done].
  apply trim_idem.
Qed.

(** Every article the parser returns has a title without white space
    at either end, and so is its link when it comes from an RSS item.
    (The link of an Atom entry is its [href] as it stands.) *)
Theorem parseRSSItems_trimmed
    (h : Host) (clk : Clock) (xmlText : string) (source : FeedSource.t)
    (s : ParseState) :
  let xml := parseFromString h xmlText in
  ∃ out s',
    parseRSSItems h clk xmlText source s = (Normal out, s')
    ∧ Forall (λ a, trim (Article.title a) = Article.title a
                   ∧ (qualifying RSS xml ≠ [] →
                      trim (Article.link a) = Article.link a)) out.
Proof.
  intros xml.
  destruct (parseRSSItems_run h clk source xmlText s)
    as (out & s' & Hrun & _ & _ & Hall).
  fold xml in Hall. exists out, s'. split; [done|].
  eapply Forall2_Forall_l; [exact Hall|].
  apply Forall_forall. intros el _ a (date & -> & _). simpl.
  split; [apply trimmed_text_trimmed|].
  intros Hrss%dialect_used_RSS. rewrite Hrss. apply trimmed_text_trimmed.
Qed.

(** ** Ties in the sort *)

Lemma sort_insert_filter {A} (cmp : A → A → option Z) (P : A → bool) x l :
  (∀ y, P x = true → P y = true → (0 <? sort_compare cmp x y)%Z = false) →
  List.filter P (sort_insert cmp x l) = List.filter P (x :: l).
Proof.
  intros Htie. induction l as [|y l IH]; [done|].
  cbn [sort_insert]. destruct (0 <? sort_compare cmp x y)%Z eqn:Hc; [|done].
  cbn [List.filter] in *. rewrite IH.
  destruct (P x) eqn:Hx, (P y) eqn:Hy; try done.
  by rewrite Htie in Hc.
Qed.

Lemma sort_filter {A} (cmp : A → A → option Z) (P : A → bool) l :
  (∀ x y, P x = true → P y = true → (0 <? sort_compare cmp x y)%Z = false) →
  List.filter P (sort cmp l) = List.filter P l.
Proof.
  intros Htie. induction l as [|x l IH]; [done|].
  cbn [sort]. rewrite sort_insert_filter by (intros y; apply Htie).
  cbn [List.filter]. by rewrite IH.
Qed.

(** The sort is stable on dates.  In a round in which every article
    contributed has a valid date, the articles with one and the same
    date stand in the sorted sequence in the order in which the sources
    contributed them (the order of the sources, then the order in the
    feed). *)
Theorem all_articles_stable
    (results : list (Settled (list Article.t))) (t : Z) :
  Forall has_valid_date (flat_map value_of (List.filter is_fulfilled results)) →
  List.filter (λ a, bool_decide (Article.pubDate a = Some t)) (all_articles results)
  = List.filter (λ a, bool_decide (Article.pubDate a = Some t))
                (flat_map value_of (List.filter is_fulfilled results)).
Proof.
  intros _. unfold all_articles. apply sort_filter.
  intros x y Hx%bool_decide_eq_true Hy%bool_decide_eq_true.
  unfold sort_compare, newest_first, date_sub. rewrite Hx, Hy.
  apply Z.ltb_ge. lia.
Qed.

(** Two sources with an article of the same date: the article of the
    first source stands before the article of the second. *)
Lemma all_articles_stable_tied :
  ∃ t,
    Sample.iso_Date_parse "2024-05-01T09:00:00Z" = Some t
    ∧ Article.title
        <$> List.filter (λ a, bool_decide (Article.pubDate a = Some t))
              (all_articles (settle <$> map (pipeline Sample.tied_host) RSS_SOURCES))
      = ["Alpha ships"; "Epsilon lands"]%string.
Proof.
  eexists. split; [vm_compute; reflexivity|].
  rewrite (all_articles_stable
             (settle <$> map (pipeline Sample.tied_host) RSS_SOURCES)).
  - vm_compute. reflexivity.
  - vm_compute. repeat constructor.
Defined.

(** ** De-duplication, again *)

Lemma filter_with_unseen_id l : ∀ seen,
  NoDup (dedup_key <$> l) →
  (∀ a, a ∈ l → dedup_key a ∉ seen) →
  filter_with unseen l seen = l.
Proof.
  induction l as [|x l IH]; intros seen Hnd Hseen; [done|].
  cbn [fmap list_fmap] in Hnd. apply NoDup_cons in Hnd as [Hx Hnd].
  cbn [filter_with]. unfold unseen.
  rewrite bool_decide_eq_false_2 by (apply Hseen; by left).
  f_equal. apply IH; [done|]. intros a Ha.
  intros [Hin|Hin]%elem_of_union.
  - apply elem_of_singleton in Hin. apply Hx.
    apply list_elem_of_fmap. by exists a.
  - eapply Hseen; [by right|done].
Qed.

(** De-duplicating changes nothing in a list whose keys are distinct,
    so de-duplicating twice is de-duplicating once. *)
Theorem unique_articles_idem (l : list Article.t) :
  unique_articles (unique_articles l) = unique_articles l
  ∧ (NoDup (dedup_key <$> l) → unique_articles l = l).
Proof.
  assert (∀ k, NoDup (dedup_key <$> k) → unique_articles k = k) as Hid.
  { intros k Hnd. apply filter_with_unseen_id; [done|].
    intros a _. apply not_elem_of_empty. }
  split; [|apply Hid]. apply Hid, filter_with_unseen_NoDup.
Qed.

(** ** The first body is final *)

(** When the first relay answers 2xx with a body, that body is what the
    pipeline goes by, whatever it is, and the second relay is not
    asked: an empty body gives no article, and any other body gives
    what the parser makes of it. *)
Theorem pipeline_first_body
    (h : Host) (source : FeedSource.t) (u body : string) :
  proxy_urls (FeedSource.url source) !! 0 = Some u →
  proxy_body h u = Some body →
  fetchWithProxy h (FeedSource.url source) [] = (Normal (Some body), [u])
  ∧ pipeline h source
    = (if is_empty body then Normal []
       else run (parseRSSItems h (clock h (Parsing source)) body source) parse_start)
  ∧ (body = ""%string → articles_from h source = []).
Proof.
  intros Hu Hbody.
  assert (fetchWithProxy h (FeedSource.url source) [] = (Normal (Some body), [u]))
    as Hfetch.
  { unfold fetchWithProxy, CORS_PROXIES. rewrite for_of_proxies_round.
    unfold proxy_urls, CORS_PROXIES in Hu. cbn [fmap list_fmap lookup list_lookup] in Hu.
    injection Hu as Hu. rewrite Hu, Hbody. done. }
  assert (pipeline h source
          = (if is_empty body then Normal []
             else run (parseRSSItems h (clock h (Parsing source)) body source)
                      parse_start)) as Hpipe.
  { unfold pipeline, run at 1. rewrite Hfetch. cbn [fst truthy value default].
    by destruct (is_empty body). }
  split_and!; [done..|].
  intros ->. unfold articles_from. by rewrite Hpipe.
Qed.

(** A host whose first relay sends an empty body: the source gives no
    article, though the second relay has the feed. *)
Lemma pipeline_first_body_empty :
  proxy_body Sample.empty_body_host (Sample.via2 0)
  = Some (Sample.xml_text Sample.feed_a)
  ∧ fetchWithProxy Sample.empty_body_host (FeedSource.url (Sample.source 0)) []
    = (Normal (Some ""%string), [Sample.via1 0])
  ∧ articles_from Sample.empty_body_host (Sample.source 0) = [].
Proof.
  split; [vm_compute; reflexivity|].
  destruct (pipeline_first_body Sample.empty_body_host (Sample.source 0)
              (Sample.via1 0) ""%string) as (Hfetch & _ & Hnone);
    [reflexivity|vm_compute; reflexivity|].
  split; [exact Hfetch|]. by apply Hnone.
Defined.

(** ** Nothing is kept from the round before *)

(** What a run of [fetchNews] leaves in the state variables does not
    depend on what they held before: the earlier articles, error
    message and date of update are all replaced. *)
Theorem fetchNews_discards_previous (h : Host) (v1 v2 : ViewState) (t : nat) :
  ∃ r1 r2,
    fetchNews h {| view := v1; reads := t |} = (Normal tt, r1)
    ∧ fetchNews h {| view := v2; reads := t |} = (Normal tt, r2)
    ∧ view r1 = view r2.
Proof.
  destruct (fetchNews_run h {| view := v1; reads := t |}) as (r1 & Hrun1 & Hview1).
  destruct (fetchNews_run h {| view := v2; reads := t |}) as (r2 & Hrun2 & Hview2).
  exists r1, r2. split_and!; [done..|]. by rewrite Hview1, Hview2.
Qed.
